(** * Tic-Tac-Toe: the move-selection core of [src/main.ts]

    A shallow embedding of the game logic and of the minimax opponent,
    followed by the properties the specification states about them.

    Conventions of the embedding.
    - A JavaScript array of cells is a [list CellValue]; [None : CellValue]
      is [null].  Reading [board[i]] is [board !! i]; an index outside the
      array reads [undefined], which is the [None] of the lookup.
    - The search mutates the caller's array in place.  The functions below
      thread the array explicitly: they take the array and give back the
      array as the call leaves it.  A store [board[i] = v] is [<[i := v]>];
      the search only stores where it has just read [null], that is inside
      the array.
    - [number]s that the code only counts with (depths, indices, tallies)
      are integers; a score is an integer or one of the two infinities the
      loops start from.
    - Recursion is bounded by a [fuel] argument; running out of fuel is the
      [None] of the result.  Totality is a theorem, not an assumption.
    - The reply of the opponent runs in a timer callback.  [clickCell],
      [timerFires] and [run] are the handlers as the event loop runs
      them; [handleCellClick] and [play] are the session with every reply
      run at once, within which every run of the event loop stays.
    - A draw of [Math.random()] is a rational number in a session, and a
      double where the rounding of the product matters ([double_index]). *)

From Stdlib Require Import ZArith List Bool Lia QArith Qround Sorted.
From stdpp Require Import base option list.

Open Scope Z_scope.

(** ** Types *)

Inductive Player : Type := X | O.

(** [type CellValue = Player | null] *)
Abbreviation CellValue := (option Player).

(** [CellValue[]] *)
Abbreviation Board := (list CellValue).

Inductive GameMode : Type := pvp | pvec | pvcm | pvch.

Inductive Difficulty : Type := easy | medium | hard.

(** [type WinCombo = [number, number, number]], read with [every]. *)
Definition WinCombo : Type := list nat.

Record Stats : Type := mkStats { xWins : Z; oWins : Z; draws : Z }.

(** [interface GameState]; [isMuted] only drives the sound and is left out. *)
Record GameState : Type := mkState {
  board : Board;
  currentPlayer : Player;
  isGameActive : bool;
  mode : GameMode;
  stats : Stats
}.

(** A score: a finite integer, or the [-Infinity] / [Infinity] the search
    loops are initialised with. *)
Inductive Score : Type := NegInf | Fin (z : Z) | PosInf.

Definition Player_eqb (p q : Player) : bool :=
  match p, q with
  | X, X | O, O => true
  | _, _ => false
  end.

(** ** Constants *)

Definition WIN_COMBINATIONS : list WinCombo :=
  [ [0; 1; 2]; [3; 4; 5]; [6; 7; 8];
    [0; 3; 6]; [1; 4; 7]; [2; 5; 8];
    [0; 4; 8]; [2; 4; 6] ]%nat.

Definition SCORES_X : Z := -10.
Definition SCORES_O : Z := 10.
Definition SCORES_TIE : Z := 0.

(** ** Reading cells *)

(** [c === null] for an array element [c]. *)
Definition cell_is_null (c : CellValue) : bool :=
  match c with
  | None => true
  | Some _ => false
  end.

(** [board[i] === null]; false when [i] is outside the array. *)
Definition is_null (board : Board) (i : nat) : bool :=
  match board !! i with
  | Some None => true
  | _ => false
  end.

(** [board[i] === player]; false on [null] and outside the array. *)
Definition holds (board : Board) (player : Player) (i : nat) : bool :=
  match board !! i with
  | Some (Some q) => Player_eqb q player
  | _ => false
  end.

(** [board.every(c => c === null)] *)
Definition all_null (board : Board) : bool := forallb cell_is_null board.

(** [board.every(c => c !== null)] *)
Definition none_null (board : Board) : bool :=
  forallb (fun c => negb (cell_is_null c)) board.

(** Number of empty cells: the measure that bounds the search. *)
Definition count_null (board : Board) : nat :=
  length (filter (fun c => cell_is_null c = true) board).

(** ** Score arithmetic *)

(** [a > b] on numbers. *)
Definition score_gt (a b : Score) : bool :=
  match a, b with
  | NegInf, _ => false
  | _, PosInf => false
  | Fin x, Fin y => Z.ltb y x
  | _, _ => true
  end.

Definition Math_max (a b : Score) : Score := if score_gt a b then a else b.
Definition Math_min (a b : Score) : Score := if score_gt a b then b else a.

(** The order on scores, as a proposition. *)
Definition score_le (a b : Score) : Prop := score_gt a b = false.

(** ** Loops *)

(** [for (const i of idxs) s = body(i, s)], stopping when a call inside the
    body ran out of fuel. *)
Fixpoint for_each {St : Type} (body : nat -> St -> option St)
    (idxs : list nat) (s : St) : option St :=
  match idxs with
  | [] => Some s
  | i :: idxs' =>
      match body i s with
      | Some s' => for_each body idxs' s'
      | None => None
      end
  end.

(** The indices of [for (let i = 0; i < 9; i++)]. *)
Definition cells : list nat := seq 0 9.

(** ** The win evaluator *)

Definition checkWin (board : Board) (player : Player) : bool :=
  existsb (fun combo => forallb (fun index => holds board player index) combo)
          WIN_COMBINATIONS.

(** ** Minimax *)

(** One iteration of a search loop of [minimax]: on an empty cell, place
    [mark], evaluate one ply deeper with [rec], take the mark back and fold
    the score into the running best with [pick]. *)
Definition search_cell (rec : Board -> option (Score * Board))
    (mark : Player) (pick : Score -> Score -> Score)
    (i : nat) (st : Score * Board) : option (Score * Board) :=
  let '(bestScore, board) := st in
  if is_null board i then
    match rec (<[i := Some mark]> board) with
    | Some (score, board) => Some (pick score bestScore, <[i := None]> board)
    | None => None
    end
  else Some (bestScore, board).

Fixpoint minimax (fuel : nat) (board : Board) (depth : Z)
    (isMaximizing : bool) (aiPlayer : Player) {struct fuel}
    : option (Score * Board) :=
  match fuel with
  | 0%nat => None
  | S fuel' =>
      if checkWin board O then Some (Fin (SCORES_O - depth), board)
      else if checkWin board X then Some (Fin (SCORES_X + depth), board)
      else if none_null board then Some (Fin SCORES_TIE, board)
      else if isMaximizing then
        for_each
          (search_cell
             (fun board => minimax fuel' board (depth + 1) false aiPlayer)
             O Math_max)
          cells (NegInf, board)
      else
        for_each
          (search_cell
             (fun board => minimax fuel' board (depth + 1) true aiPlayer)
             X Math_min)
          cells (PosInf, board)
  end.

(** One iteration of the root loop of [getBestMove]; the state is
    [(bestScore, move, board)]. *)
Definition root_cell (fuel : nat) (aiPlayer : Player)
    (i : nat) (st : Score * Z * Board) : option (Score * Z * Board) :=
  let '(bestScore, move, board) := st in
  if is_null board i then
    match minimax fuel (<[i := Some aiPlayer]> board) 0 false aiPlayer with
    | Some (score, board) =>
        let board := <[i := None]> board in
        if score_gt score bestScore then Some (score, Z.of_nat i, board)
        else Some (bestScore, move, board)
    | None => None
    end
  else Some (bestScore, move, board).

(** The root loop alone (lines 158-169 of [getBestMove]). *)
Definition rootSearch (fuel : nat) (board : Board) (aiPlayer : Player)
    : option (Z * Board) :=
  match for_each (root_cell fuel aiPlayer) cells (NegInf, -1, board) with
  | Some (_, move, board) => Some (move, board)
  | None => None
  end.

Definition getBestMove (fuel : nat) (board : Board) (aiPlayer : Player)
    : option (Z * Board) :=
  if all_null board then Some (4, board)
  else rootSearch fuel board aiPlayer.

(** Fuel that always suffices for a search from [board]. *)
Definition search_fuel (board : Board) : nat := S (count_null board).

Definition emptyBoard : Board := replicate 9 None.

(** ** The random policy *)

(** [state.board.map((v, i) => v === null ? i : -1)] *)
Definition mark_available (board : Board) : list Z :=
  imap (fun i v => if cell_is_null v then Z.of_nat i else -1) board.

(** [... .filter(i => i !== -1)] *)
Definition available (board : Board) : list Z :=
  List.filter (fun i => negb (Z.eqb i (-1))) (mark_available board).

(** [Math.floor(r * n)] for a draw [r] of [Math.random()] and a length [n].
    A draw is a rational number (every double is one) and the product is
    the exact one.  The code's product is a double, the exact product
    rounded: [double_index] below computes that index, which is another
    one for some draws and lengths (0.6 and five cells give 3, not 2) and
    the same one when [n] is 1.  A session is stated for every draw, and
    each index the code computes is the exact index of some rational
    draw of [0, 1) ([getRandomMove64_exact]). *)
Definition random_index (r : Q) (n : nat) : Z :=
  Qfloor (r * inject_Z (Z.of_nat n)).

(** [getRandomMove], reading the board of the session state and one draw
    [r] of [Math.random()].  The result [None] is [undefined]: an index
    outside [available], which needs a draw outside [0, 1). *)
Definition getRandomMove (board : Board) (r : Q) : option Z :=
  let available := available board in
  if Nat.eqb (length available) 0 then Some (-1)
  else
    let k := random_index r (length available) in
    if Z.ltb k 0 then None else available !! Z.to_nat k.

(** ** The session controller *)

(** [Player | 'draw'], the argument of [endGame]. *)
Inductive Winner : Type := Won (p : Player) | Drawn.

Definition getDifficulty (st : GameState) : Difficulty :=
  match mode st with
  | pvec => easy
  | pvcm => medium
  | pvch => hard
  | pvp => easy
  end.

Definition isAiTurn (st : GameState) : bool :=
  match mode st, currentPlayer st with
  | pvp, _ => false
  | _, O => true
  | _, X => false
  end.

Definition endGame (winner : Winner) (st : GameState) : GameState :=
  let s := stats st in
  let s' :=
    match winner with
    | Drawn => mkStats (xWins s) (oWins s) (draws s + 1)
    | Won X => mkStats (xWins s + 1) (oWins s) (draws s)
    | Won O => mkStats (xWins s) (oWins s + 1) (draws s)
    end in
  mkState (board st) (currentPlayer st) false (mode st) s'.

(** [makeMove].  On the nine-cell board of the session every index the
    callers pass is inside the array.  (On a shorter array the store of
    the model changes nothing, where JavaScript would extend the array.) *)
Definition makeMove (index : nat) (player : Player) (st : GameState)
    : GameState :=
  let st := mkState (<[index := Some player]> (board st)) (currentPlayer st)
                    (isGameActive st) (mode st) (stats st) in
  if checkWin (board st) player then endGame (Won player) st
  else if none_null (board st) then endGame Drawn st
  else mkState (board st)
               (match currentPlayer st with X => O | O => X end)
               (isGameActive st) (mode st) (stats st).

(** The move index [makeAiMove] computes, with the board as the search
    leaves it.  [coin] is the draw of the medium policy and [r] the draw
    of [getRandomMove].  [None]: the search ran out of fuel, or the index
    is [undefined]. *)
Definition aiMoveIndex (st : GameState) (coin r : Q) : option (Z * Board) :=
  let smart := getBestMove (search_fuel (board st)) (board st) O in
  let random :=
    match getRandomMove (board st) r with
    | Some m => Some (m, board st)
    | None => None
    end in
  match getDifficulty st with
  | easy => random
  | medium => if negb (Qle_bool coin (1 # 2)) then smart else random
  | hard => smart
  end.

Definition makeAiMove (st : GameState) (coin r : Q) : option GameState :=
  if negb (isGameActive st) then Some st
  else
    match aiMoveIndex st coin r with
    | Some (moveIndex, board) =>
        let st := mkState board (currentPlayer st) (isGameActive st)
                          (mode st) (stats st) in
        if negb (Z.eqb moveIndex (-1))
        then Some (makeMove (Z.to_nat moveIndex) O st)
        else Some st
    | None => None
    end.

(** A click on a cell, with the draws the opponent's reply may consume. *)
Record Click : Type := mkClick { cell : nat; coin : Q; draw : Q }.

(** [handleCellClick] together with the callback it schedules: the reply
    of the opponent, which the code delays with a timer while input is
    blocked, runs right after the move.  The handler alone is [clickCell]
    and the callback [timerFires], below; [run_simulated] relates the
    runs of the event loop to the sessions of this function. *)
Definition handleCellClick (c : Click) (st : GameState) : option GameState :=
  if negb (isGameActive st) || negb (is_null (board st) (cell c)) then Some st
  else
    let st := makeMove (cell c) (currentPlayer st) st in
    if isGameActive st && isAiTurn st then
      makeAiMove (mkState (board st) (currentPlayer st) true (mode st)
                          (stats st))
                 (coin c) (draw c)
    else Some st.

(** The state [resetGame] leaves, for a mode and a tally. *)
Definition newGame (m : GameMode) (s : Stats) : GameState :=
  mkState emptyBoard X true m s.

(** The hard-mode session at its first click.  The program lets X open
    ([resetGame] sets [currentPlayer] to X); a play that O opens starts
    with the reply of [makeAiMove] on the empty board. *)
Definition openGame (opener : Player) (s : Stats) : option GameState :=
  match opener with
  | X => Some (newGame pvch s)
  | O => makeAiMove (mkState emptyBoard O true pvch s) 0 0
  end.

(** A session: the clicks in order. *)
Fixpoint play (clicks : list Click) (st : GameState) : option GameState :=
  match clicks with
  | [] => Some st
  | c :: clicks' =>
      match handleCellClick c st with
      | Some st' => play clicks' st'
      | None => None
      end
  end.

(** ** Exhaustive exploration of the hard mode *)

Definition zeroStats : Stats := mkStats 0 0 0.

Definition is_hard (m : GameMode) : bool :=
  match m with pvch => true | _ => false end.

(** What is checked of every state of a hard-mode session that started
    with an empty tally: X has no line and no recorded win; the game is
    either waiting for X, or over with a win of O or a draw recorded. *)
Definition verdict_ok (st : GameState) : bool :=
  negb (checkWin (board st) X) && Z.eqb (xWins (stats st)) 0 &&
  is_hard (mode st) &&
  (if isGameActive st then
     Player_eqb (currentPlayer st) X &&
     Z.eqb (oWins (stats st)) 0 && Z.eqb (draws (stats st)) 0
   else
     (checkWin (board st) O &&
      Z.eqb (oWins (stats st)) 1 && Z.eqb (draws (stats st)) 0)
     || (negb (checkWin (board st) O) && none_null (board st) &&
         Z.eqb (oWins (stats st)) 0 && Z.eqb (draws (stats st)) 1)).

Definition noDraws (i : nat) : Click := mkClick i 0 0.

(** All sessions of at most [n] effective clicks from [st] keep
    [verdict_ok], and none is longer. *)
Fixpoint explore (n : nat) (st : GameState) : bool :=
  verdict_ok st &&
  forallb
    (fun i =>
       if isGameActive st && is_null (board st) i then
         match n with
         | 0%nat => false
         | S n' =>
             match handleCellClick (noDraws i) st with
             | Some st' => explore n' st'
             | None => false
             end
         end
       else true)
    (seq 0 (length (board st))).

(** ** The root loop as a scan *)

(** The score the root loop gives to cell [i]: the value of the position
    with [aiPlayer] placed there. *)
Definition rootScore (fuel : nat) (board : Board) (aiPlayer : Player)
    (i : nat) : Score :=
  match minimax fuel (<[i := Some aiPlayer]> board) 0 false aiPlayer with
  | Some (score, _) => score
  | None => NegInf
  end.

(** The root loop without the array: the running best score and move. *)
Definition scan_cell (sc : nat -> Score) (board : Board)
    (st : Score * Z) (i : nat) : Score * Z :=
  if is_null board i then
    if score_gt (sc i) (fst st) then (sc i, Z.of_nat i) else st
  else st.

Definition scan (sc : nat -> Score) (board : Board) (idxs : list nat)
    (st : Score * Z) : Score * Z :=
  fold_left (scan_cell sc board) idxs st.

(** ** Predicates of the statements *)

(** Every empty cell has an index the loops visit. *)
Definition scanned (board : Board) : Prop :=
  forall i, is_null board i = true -> (i < 9)%nat.

Definition finite (s : Score) : Prop := exists z, s = Fin z.

(** The three cells [a], [b], [c] all hold [player]. *)
Definition line (board : Board) (player : Player) (a b c : nat) : Prop :=
  board !! a = Some (Some player) /\
  board !! b = Some (Some player) /\
  board !! c = Some (Some player).

(** ** The tally *)

(** The state with the tally [d] added to its counters. *)
Definition add_stats (d : Stats) (st : GameState) : GameState :=
  mkState (board st) (currentPlayer st) (isGameActive st) (mode st)
          (mkStats (xWins (stats st) + xWins d)
                   (oWins (stats st) + oWins d)
                   (draws (stats st) + draws d)).

(** ** Example positions *)

Definition boardOwins : Board :=
  [Some O; Some O; Some O; Some X; Some X; None; None; Some X; None].
Definition boardXwins : Board :=
  [Some X; Some O; Some O; None; Some X; None; None; None; Some X].
Definition boardDrawn : Board :=
  [Some X; Some O; Some X; Some X; Some O; Some O; Some O; Some X; Some X].

Definition boardMidGame : Board :=
  [Some O; Some O; None; Some X; Some X; None; None; None; None].

Definition hardMidGame : GameState :=
  mkState boardMidGame O true pvch (mkStats 0 0 0).

(** The position of the specification's second scenario: X in two opposite
    corners, O in the centre. *)
Definition boardCorners : Board :=
  [Some X; None; None; None; Some O; None; None; None; Some X].

Definition boardOneLeft : Board :=
  [Some X; Some O; Some X; Some X; Some O; None; Some O; Some X; Some O].

(** ** Further functions of [src/main.ts] *)

(** [getWinningCombo]: the first complete line of the table, or [null]. *)
Definition getWinningCombo (board : Board) (player : Player)
    : option WinCombo :=
  find (fun combo => forallb (fun index => holds board player index) combo)
       WIN_COMBINATIONS.

(** [resetGame]: a fresh board, X to move, the mode and the tally kept. *)
Definition resetGame (st : GameState) : GameState :=
  mkState emptyBoard X true (mode st) (stats st).

(** [clearStats] *)
Definition clearStats (st : GameState) : GameState :=
  resetGame (mkState (board st) (currentPlayer st) (isGameActive st)
                     (mode st) zeroStats).

(** [handleModeChange], for the mode the selector holds. *)
Definition handleModeChange (m : GameMode) (st : GameState) : GameState :=
  resetGame (mkState (board st) (currentPlayer st) (isGameActive st)
                     m (stats st)).

(** ** Counting *)

(** [c === player] for an array element [c]. *)
Definition cell_holds (player : Player) (c : CellValue) : bool :=
  match c with
  | Some q => Player_eqb q player
  | None => false
  end.

(** Number of cells that hold [player]. *)
Definition count_mark (player : Player) (board : Board) : nat :=
  length (List.filter (cell_holds player) board).

(** The indices of the empty cells of [board], counted from [k]. *)
Fixpoint null_indices (k : nat) (board : Board) : list nat :=
  match board with
  | [] => []
  | c :: board' =>
      if cell_is_null c then k :: null_indices (S k) board'
      else null_indices (S k) board'
  end.

(** The score is an integer between [-10 + d] and [10 - d]. *)
Definition within (d : Z) (s : Score) : Prop :=
  exists z, s = Fin z /\ -10 + d <= z <= 10 - d.

(** The mark [minimax] places in a role: O when maximizing, X when
    minimizing. *)
Definition mover (isMaximizing : bool) : Player :=
  if isMaximizing then O else X.

(** [s] is at least as good as [t] for the role: greater when
    maximizing, smaller when minimizing. *)
Definition at_least (isMaximizing : bool) (s t : Score) : Prop :=
  if isMaximizing then score_le t s else score_le s t.

(** ** The states of a session *)

(** How a finished game is recorded, for the tally [s0] it started with:
    one counter is one higher, the one of the mark that holds a line, or
    the draws when the board is full without a line. *)
Definition recorded (s0 : Stats) (st : GameState) : Prop :=
  (checkWin (board st) X = true /\ checkWin (board st) O = false /\
   stats st = mkStats (xWins s0 + 1) (oWins s0) (draws s0)) \/
  (checkWin (board st) O = true /\ checkWin (board st) X = false /\
   stats st = mkStats (xWins s0) (oWins s0 + 1) (draws s0)) \/
  (checkWin (board st) X = false /\ checkWin (board st) O = false /\
   none_null (board st) = true /\
   stats st = mkStats (xWins s0) (oWins s0) (draws s0 + 1)).

(** What a move keeps true of a game that started with the tally [s0]:
    nine cells; while the game runs, no line, an empty cell, the tally
    untouched, and as many X as O when X is to move, one more when O is;
    once it is over, the outcome recorded and X at most one ahead. *)
Definition board_ok (s0 : Stats) (st : GameState) : Prop :=
  length (board st) = 9%nat /\
  if isGameActive st then
    checkWin (board st) X = false /\ checkWin (board st) O = false /\
    none_null (board st) = false /\ stats st = s0 /\
    count_mark X (board st)
    = match currentPlayer st with
      | X => count_mark O (board st)
      | O => S (count_mark O (board st))
      end
  else
    recorded s0 st /\
    (count_mark X (board st) = count_mark O (board st) \/
     count_mark X (board st) = S (count_mark O (board st))).

(** What holds between two clicks of a session in mode [m]: [board_ok],
    the mode unchanged, and, against the computer, X to move while the
    game runs. *)
Definition session_ok (m : GameMode) (s0 : Stats) (st : GameState) : Prop :=
  board_ok s0 st /\ mode st = m /\
  (isGameActive st = true -> m <> pvp -> currentPlayer st = X).

(** ** The event loop *)

(** The session with the replies of the opponent that are scheduled and
    have not run yet: [handleCellClick] schedules a reply with
    [setTimeout], and nothing cancels it. *)
Record Session : Type := mkSession { game : GameState; timers : nat }.

(** [handleCellClick] as the event handler runs it: the move, and, when
    it is the opponent's turn, input is blocked and the reply scheduled. *)
Definition clickCell (index : nat) (s : Session) : Session :=
  let st := game s in
  if negb (isGameActive st) || negb (is_null (board st) index) then s
  else
    let st := makeMove index (currentPlayer st) st in
    if isGameActive st && isAiTurn st then
      mkSession (mkState (board st) (currentPlayer st) false (mode st)
                         (stats st))
                (S (timers s))
    else mkSession st (timers s).

(** The callback of a timer: [state.isGameActive = true; makeAiMove()].
    Without a scheduled callback nothing runs. *)
Definition timerFires (coin r : Q) (s : Session) : option Session :=
  match timers s with
  | 0%nat => Some s
  | S n =>
      let st := game s in
      match makeAiMove (mkState (board st) (currentPlayer st) true (mode st)
                                (stats st)) coin r with
      | Some st' => Some (mkSession st' n)
      | None => None
      end
  end.

(** The three handlers that start a new game: the Escape key
    ([resetGame]), the mode selector and the clear button. *)
Inductive ResetKind : Type :=
  | Escape
  | ModeChange (m : GameMode)
  | ClearStats.

Definition reset (k : ResetKind) (st : GameState) : GameState :=
  match k with
  | Escape => resetGame st
  | ModeChange m => handleModeChange m st
  | ClearStats => clearStats st
  end.

(** A reset while replies are scheduled: the timers stay. *)
Definition pressReset (k : ResetKind) (s : Session) : Session :=
  mkSession (reset k (game s)) (timers s).

(** ** Draws in binary64 *)

(** A double of [0, 1), as [Math.random()] returns one: the number
    [mant / 2 ^ scale] with a significand [mant] below [2 ^ 53] and a
    [scale] of at most 1074 (the smallest power of two of the format is
    [2 ^ -1074]). *)
Record Draw64 : Type := mkDraw64 { mant : Z; scale : Z }.

Definition is_draw (d : Draw64) : Prop :=
  0 <= mant d < 2 ^ 53 /\ 0 <= scale d <= 1074 /\ mant d < 2 ^ scale d.

(** A non-negative integer rounded to 53 significant bits, to nearest and
    ties to even: the rounding of every binary64 product. *)
Definition round53 (M : Z) : Z :=
  let s := Z.log2 M + 1 - 53 in
  if Z.leb s 0 then M
  else
    let q := M / 2 ^ s in
    let rem := M mod 2 ^ s in
    let half := 2 ^ (s - 1) in
    if Z.ltb half rem || (Z.eqb rem half && Z.odd q)
    then (q + 1) * 2 ^ s
    else q * 2 ^ s.

(** [Math.floor(d * n)] as the code computes it for a draw [d] and a
    length [n]: the exact product [mant * n / 2 ^ scale] is rounded to a
    double, and the double is floored. *)
Definition double_index (d : Draw64) (n : nat) : Z :=
  round53 (mant d * Z.of_nat n) / 2 ^ scale d.

(** The body of [getRandomMove], for the value [index n] of
    [Math.floor(Math.random() * n)]. *)
Definition getRandomMoveAt (index : nat -> Z) (board : Board) : option Z :=
  let available := available board in
  if Nat.eqb (length available) 0 then Some (-1)
  else
    let k := index (length available) in
    if Z.ltb k 0 then None else available !! Z.to_nat k.

(** [getRandomMove] with the arithmetic of doubles. *)
Definition getRandomMove64 (board : Board) (d : Draw64) : option Z :=
  getRandomMoveAt (double_index d) board.

(** ** Runs of the event loop *)

(** What the page reacts to during a game: a click on a cell, and a
    scheduled callback that runs, with the draws its reply consumes. *)
Inductive Event : Type :=
  | ClickEvent (index : nat)
  | TimerEvent (coin r : Q).

Definition step (e : Event) (s : Session) : option Session :=
  match e with
  | ClickEvent index => Some (clickCell index s)
  | TimerEvent coin r => timerFires coin r s
  end.

(** The events in order, each handler running to its end. *)
Fixpoint run (events : list Event) (s : Session) : option Session :=
  match events with
  | [] => Some s
  | e :: events' =>
      match step e s with
      | Some s' => run events' s'
      | None => None
      end
  end.

(** How a state of the event loop relates to the session [play] from
    [st0]: with no reply scheduled it is a state [play] reaches; with a
    reply scheduled it is what the click handler leaves on such a state,
    and one reply is scheduled. *)
Definition simulated (st0 : GameState) (s : Session) : Prop :=
  (timers s = 0%nat /\ exists clicks, play clicks st0 = Some (game s)) \/
  (timers s = 1%nat /\
   exists clicks st i,
     play clicks st0 = Some st /\ s = clickCell i (mkSession st 0)).

(** ** Symmetries of the board *)

(** The board whose cell [j] is the cell [sigma j] of [board]. *)
Definition permute (sigma : nat -> nat) (board : Board) : Board :=
  map (fun j => default None (board !! sigma j)) (seq 0 9).

(** A quarter turn: the first row becomes the last column. *)
Definition quarterTurn (j : nat) : nat := nth j [6; 3; 0; 7; 4; 1; 8; 5; 2]%nat j.
Definition quarterBack (j : nat) : nat := nth j [2; 5; 8; 1; 4; 7; 0; 3; 6]%nat j.

(** The mirror image: the columns in reverse order. *)
Definition mirror (j : nat) : nat := nth j [2; 1; 0; 5; 4; 3; 8; 7; 6]%nat j.

(** X holds two cells of the first column and threatens the third. *)
Definition boardThreat : Board :=
  [Some X; Some O; None; Some X; None; None; None; None; None].

(** * Properties *)

(** ** Cells and stores *)

Lemma is_null_lookup (board : Board) (i : nat) :
  is_null board i = true <-> board !! i = Some None.
Proof.
  unfold is_null. destruct (board !! i) as [[p|]|]; split; congruence.
Qed.

Lemma holds_lookup (board : Board) (player : Player) (i : nat) :
  holds board player i = true <-> board !! i = Some (Some player).
Proof.
  unfold holds. destruct (board !! i) as [[q|]|]; try (split; congruence).
  destruct q, player; simpl; split; congruence.
Qed.

Lemma is_null_lt (board : Board) (i : nat) :
  is_null board i = true -> (i < length board)%nat.
Proof.
  intros H. apply is_null_lookup in H. eapply lookup_lt_Some; eauto.
Qed.

(** Placing a mark on an empty cell and taking it back restores the array. *)
Lemma place_restore (board : Board) (i : nat) (mark : Player) :
  is_null board i = true ->
  <[i := None]> (<[i := Some mark]> board) = board.
Proof.
  intros H. apply is_null_lookup in H.
  rewrite list_insert_insert_eq. by apply list_insert_id.
Qed.

(** A placed mark creates no empty cell. *)
Lemma is_null_place (board : Board) (i j : nat) (mark : Player) :
  is_null (<[i := Some mark]> board) j = true -> is_null board j = true.
Proof.
  rewrite !is_null_lookup. intros H.
  destruct (decide (i = j)) as [->|Hne].
  - destruct (decide (j < length board)%nat) as [Hlt|Hge].
    + rewrite list_lookup_insert_eq in H by done. congruence.
    + rewrite list_insert_ge in H by lia. done.
  - by rewrite list_lookup_insert_ne in H.
Qed.

Lemma count_null_cons (c : CellValue) (board : Board) :
  count_null (c :: board) =
  ((if cell_is_null c then 1 else 0) + count_null board)%nat.
Proof.
  unfold count_null. rewrite filter_cons. destruct c; simpl; reflexivity.
Qed.

(** A placed mark removes exactly one empty cell. *)
Lemma count_null_place (board : Board) (i : nat) (mark : Player) :
  is_null board i = true ->
  S (count_null (<[i := Some mark]> board)) = count_null board.
Proof.
  revert i. induction board as [|c board IH]; intros i H.
  - discriminate.
  - destruct i as [|i].
    + destruct c; [discriminate|]. simpl. rewrite !count_null_cons. simpl. lia.
    + simpl. rewrite !count_null_cons. rewrite <- (IH i H). lia.
Qed.

Lemma none_null_lookup (board : Board) :
  none_null board = true <-> forall i, board !! i <> Some None.
Proof.
  induction board as [|c board IH]; simpl.
  - split; [intros _ i; by destruct i | done].
  - rewrite andb_true_iff, IH. split.
    + intros [Hc Hb] [|i]; simpl; [destruct c; [congruence|discriminate]|apply Hb].
    + intros H. split.
      * specialize (H 0%nat). destruct c; [done|]. by destruct H.
      * intros i. apply (H (S i)).
Qed.

Lemma none_null_false (board : Board) :
  none_null board = false -> exists i, is_null board i = true.
Proof.
  induction board as [|c board IH]; simpl; [discriminate|].
  destruct c as [p|]; simpl.
  - intros H. destruct (IH H) as [i Hi]. by exists (S i).
  - intros _. by exists 0%nat.
Qed.

Lemma none_null_count (board : Board) :
  none_null board = true <-> count_null board = 0%nat.
Proof.
  induction board as [|c board IH]; simpl; [done|].
  rewrite count_null_cons, andb_true_iff, IH.
  destruct c; simpl; split; try lia; intros []; try done. 
Qed.

(** ** Loops *)

Lemma for_each_ext {St : Type} (f g : nat -> St -> option St)
    (idxs : list nat) (s : St) :
  (forall i s, f i s = g i s) -> for_each f idxs s = for_each g idxs s.
Proof.
  intros H. revert s. induction idxs as [|i idxs IH]; intros s; simpl; [done|].
  rewrite H. destruct (g i s); [apply IH | done].
Qed.

Lemma search_cell_ext (rec1 rec2 : Board -> option (Score * Board))
    (mark : Player) (pick : Score -> Score -> Score)
    (i : nat) (st : Score * Board) :
  (forall b, rec1 b = rec2 b) ->
  search_cell rec1 mark pick i st = search_cell rec2 mark pick i st.
Proof.
  intros H. unfold search_cell. destruct st as [best b]. by rewrite H.
Qed.

(** The search loops of [minimax], for any evaluation [rec] of the
    positions one ply deeper. *)
Section SearchLoop.

Variable rec : Board -> option (Score * Board).
Variable mark : Player.
Variable pick : Score -> Score -> Score.

(** The evaluation gives the array back as it got it. *)
Hypothesis rec_frame : forall b s b', rec b = Some (s, b') -> b' = b.

(** Then so does a search loop. *)
Lemma search_loop_frame (idxs : list nat) :
  forall acc b acc' b',
    for_each (search_cell rec mark pick) idxs (acc, b) = Some (acc', b') ->
    b' = b.
Proof using rec_frame.
  induction idxs as [|i idxs IH]; intros acc b acc' b' H; simpl in H.
  - congruence.
  - destruct (is_null b i) eqn:Hi.
    + destruct (rec (<[i := Some mark]> b)) as [[s b1]|] eqn:Hr; [|done].
      apply rec_frame in Hr. subst b1. rewrite place_restore in H by done.
      eauto.
    + eauto.
Qed.

(** If every evaluation below an empty cell returns, so does a search
    loop, and with the array unchanged. *)
Lemma search_loop_total (b : Board) :
  (forall i, is_null b i = true ->
     exists s, rec (<[i := Some mark]> b) = Some (s, <[i := Some mark]> b)) ->
  forall idxs acc,
    exists acc', for_each (search_cell rec mark pick) idxs (acc, b)
                 = Some (acc', b).
Proof using Type.
  intros Hrec. induction idxs as [|i idxs IH]; intros acc; simpl.
  - eauto.
  - destruct (is_null b i) eqn:Hi; [|apply IH].
    destruct (Hrec i Hi) as [s ->]. rewrite place_restore by done. apply IH.
Qed.

(** A loop that starts from [init] and meets an empty cell ends with a
    finite score, if the evaluations are finite and [pick] keeps finite
    scores finite. *)
Lemma search_loop_finite (init : Score) (b : Board) :
  (forall z acc, acc = init \/ finite acc -> finite (pick (Fin z) acc)) ->
  (forall i s b', is_null b i = true ->
     rec (<[i := Some mark]> b) = Some (s, b') -> finite s) ->
  forall idxs acc acc' b',
    for_each (search_cell rec mark pick) idxs (acc, b) = Some (acc', b') ->
    finite acc \/ (acc = init /\ exists i, In i idxs /\ is_null b i = true) ->
    finite acc'.
Proof using rec_frame.
  intros Hpick Hfin.
  induction idxs as [|i idxs IH]; intros acc acc' b' H Hacc; simpl in H.
  - destruct Hacc as [Hf | (_ & j & [] & _)]. congruence.
  - destruct (is_null b i) eqn:Hi.
    + destruct (rec (<[i := Some mark]> b)) as [[s b1]|] eqn:Hr; [|done].
      pose proof (rec_frame _ _ _ Hr) as ->.
      destruct (Hfin _ _ _ Hi Hr) as [z ->].
      rewrite place_restore in H by done.
      apply IH in H; [done|]. left. apply Hpick.
      destruct Hacc as [Hf | [-> _]]; [by right|by left].
    + apply IH in H; [done|].
      destruct Hacc as [Hf | (-> & j & [->|Hj] & Hnull)];
        [by left|congruence|right; eauto].
Qed.

End SearchLoop.

(** ** Frame and totality of [minimax] *)

(** The body of [minimax], one level unfolded. *)
Lemma minimax_S (fuel : nat) (board : Board) (depth : Z)
    (isMaximizing : bool) (aiPlayer : Player) :
  minimax (S fuel) board depth isMaximizing aiPlayer =
  if checkWin board O then Some (Fin (SCORES_O - depth), board)
  else if checkWin board X then Some (Fin (SCORES_X + depth), board)
  else if none_null board then Some (Fin SCORES_TIE, board)
  else if isMaximizing then
    for_each
      (search_cell (fun board => minimax fuel board (depth + 1) false aiPlayer)
                   O Math_max)
      cells (NegInf, board)
  else
    for_each
      (search_cell (fun board => minimax fuel board (depth + 1) true aiPlayer)
                   X Math_min)
      cells (PosInf, board).
Proof. reflexivity. Qed.

Lemma minimax_frame (fuel : nat) :
  forall board depth isMaximizing aiPlayer s board',
    minimax fuel board depth isMaximizing aiPlayer = Some (s, board') ->
    board' = board.
Proof.
  induction fuel as [|fuel IH]; intros b d m a s b' H; [done|].
  rewrite minimax_S in H.
  destruct (checkWin b O); [congruence|].
  destruct (checkWin b X); [congruence|].
  destruct (none_null b); [congruence|].
  destruct m; eapply search_loop_frame in H; eauto.
Qed.

Lemma minimax_total (fuel : nat) :
  forall board depth isMaximizing aiPlayer,
    (count_null board < fuel)%nat ->
    exists s, minimax fuel board depth isMaximizing aiPlayer = Some (s, board).
Proof.
  induction fuel as [|fuel IH]; intros b d m a Hlt; [lia|].
  rewrite minimax_S.
  destruct (checkWin b O); [eauto|].
  destruct (checkWin b X); [eauto|].
  destruct (none_null b); [eauto|].
  destruct m; apply search_loop_total; intros i Hi; apply IH;
    pose proof (count_null_place b i O Hi);
    pose proof (count_null_place b i X Hi); lia.
Qed.

(** More fuel does not change a result. *)
Lemma for_each_mono {St : Type} (f g : nat -> St -> option St) :
  (forall i s r, f i s = Some r -> g i s = Some r) ->
  forall idxs s r, for_each f idxs s = Some r -> for_each g idxs s = Some r.
Proof.
  intros H. induction idxs as [|i idxs IH]; intros s r Hf; simpl in *; [done|].
  destruct (f i s) as [s'|] eqn:E; [|done]. rewrite (H _ _ _ E). eauto.
Qed.

Lemma search_cell_mono (rec1 rec2 : Board -> option (Score * Board))
    (mark : Player) (pick : Score -> Score -> Score) :
  (forall b r, rec1 b = Some r -> rec2 b = Some r) ->
  forall i st r, search_cell rec1 mark pick i st = Some r ->
                 search_cell rec2 mark pick i st = Some r.
Proof.
  intros H i [best b] r. unfold search_cell.
  destruct (is_null b i); [|done].
  destruct (rec1 _) as [[s b1]|] eqn:E; [|done]. by rewrite (H _ _ E).
Qed.

Lemma minimax_fuel_S (fuel : nat) :
  forall board depth isMaximizing aiPlayer r,
    minimax fuel board depth isMaximizing aiPlayer = Some r ->
    minimax (S fuel) board depth isMaximizing aiPlayer = Some r.
Proof.
  induction fuel as [|fuel IH]; intros b d m a r H; [done|].
  rewrite minimax_S. rewrite minimax_S in H.
  destruct (checkWin b O); [done|].
  destruct (checkWin b X); [done|].
  destruct (none_null b); [done|].
  destruct m; revert H; apply for_each_mono; apply search_cell_mono;
    intros b1 r1 H1; by apply IH.
Qed.

Lemma minimax_fuel_le (fuel fuel' : nat) :
  (fuel <= fuel')%nat ->
  forall board depth isMaximizing aiPlayer r,
    minimax fuel board depth isMaximizing aiPlayer = Some r ->
    minimax fuel' board depth isMaximizing aiPlayer = Some r.
Proof.
  induction 1 as [|fuel' Hle IH]; intros b d m a r H; [done|].
  apply minimax_fuel_S. by apply IH.
Qed.

(** The value of a search does not depend on the fuel, once there is
    enough of it. *)
Lemma minimax_enough (board : Board) (depth : Z) (isMaximizing : bool)
    (aiPlayer : Player) :
  exists s, forall fuel, (count_null board < fuel)%nat ->
    minimax fuel board depth isMaximizing aiPlayer = Some (s, board).
Proof.
  destruct (minimax_total (search_fuel board) board depth isMaximizing aiPlayer)
    as [s Hs]; [unfold search_fuel; lia|].
  exists s. intros fuel Hlt. eapply minimax_fuel_le; [|exact Hs].
  unfold search_fuel. lia.
Qed.

(** ** The root loop of [getBestMove] *)

Lemma root_loop_frame (fuel : nat) (aiPlayer : Player) :
  forall idxs best move b best' move' b',
    for_each (root_cell fuel aiPlayer) idxs (best, move, b)
      = Some (best', move', b') ->
    b' = b.
Proof.
  induction idxs as [|i idxs IH]; intros best move b best' move' b' H;
    simpl in H; [congruence|].
  destruct (is_null b i) eqn:Hi; [|eauto].
  destruct (minimax fuel _ 0 false aiPlayer) as [[s b1]|] eqn:Hr; [|done].
  apply minimax_frame in Hr. subst b1. rewrite place_restore in H by done.
  destruct (score_gt s best); eauto.
Qed.

Lemma rootSearch_frame (fuel : nat) (board : Board) (aiPlayer : Player)
    (move : Z) (board' : Board) :
  rootSearch fuel board aiPlayer = Some (move, board') -> board' = board.
Proof.
  unfold rootSearch. intros H.
  destruct (for_each _ _ _) as [[[best m] b1]|] eqn:E; [|done].
  apply root_loop_frame in E. congruence.
Qed.

Lemma root_loop_scan (fuel : nat) (aiPlayer : Player) (b : Board) :
  (count_null b <= fuel)%nat ->
  forall idxs best move,
    for_each (root_cell fuel aiPlayer) idxs (best, move, b)
    = Some (scan (rootScore fuel b aiPlayer) b idxs (best, move), b).
Proof.
  intros Hfuel. induction idxs as [|i idxs IH]; intros best move; [done|].
  unfold scan. cbn [for_each fold_left].
  fold (scan (rootScore fuel b aiPlayer) b).
  unfold root_cell, scan_cell, rootScore. cbn [fst].
  destruct (is_null b i) eqn:Hi; [|apply IH].
  destruct (minimax_total fuel (<[i := Some aiPlayer]> b) 0 false aiPlayer)
    as [s Hs].
  { pose proof (count_null_place b i aiPlayer Hi). lia. }
  rewrite Hs, place_restore by done.
  destruct (score_gt s best); apply IH.
Qed.

Lemma rootSearch_scan (fuel : nat) (board : Board) (aiPlayer : Player) :
  (count_null board <= fuel)%nat ->
  rootSearch fuel board aiPlayer
  = Some (snd (scan (rootScore fuel board aiPlayer) board cells (NegInf, -1)),
          board).
Proof.
  intros Hfuel. unfold rootSearch. rewrite root_loop_scan by done.
  by destruct (scan _ _ _ _).
Qed.

Lemma getBestMove_frame (fuel : nat) (board : Board) (aiPlayer : Player)
    (move : Z) (board' : Board) :
  getBestMove fuel board aiPlayer = Some (move, board') -> board' = board.
Proof.
  unfold getBestMove. destruct (all_null board); [congruence|].
  apply rootSearch_frame.
Qed.

Lemma getBestMove_total (fuel : nat) (board : Board) (aiPlayer : Player) :
  (count_null board <= fuel)%nat ->
  exists move, getBestMove fuel board aiPlayer = Some (move, board).
Proof.
  intros Hfuel. unfold getBestMove. destruct (all_null board); [eauto|].
  rewrite rootSearch_scan by done. eauto.
Qed.

Lemma aiMoveIndex_frame (st : GameState) (coin r : Q) (move : Z)
    (board' : Board) :
  aiMoveIndex st coin r = Some (move, board') -> board' = board st.
Proof.
  unfold aiMoveIndex.
  assert (Hrandom : match getRandomMove (board st) r with
                    | Some m => Some (m, board st)
                    | None => None
                    end = Some (move, board') -> board' = board st).
  { destruct (getRandomMove (board st) r); congruence. }
  destruct (getDifficulty st); [done| |apply getBestMove_frame].
  destruct (negb _); [apply getBestMove_frame | done].
Qed.

(** * The claims *)

(** ** C7: the win evaluator *)

(** C7.  For every array of cells and both marks, [checkWin] is true
    exactly when one of the eight lines - the rows 0-1-2, 3-4-5, 6-7-8,
    the columns 0-3-6, 1-4-7, 2-5-8, the diagonals 0-4-8, 2-4-6 - has its
    three cells equal to the mark. *)
Theorem checkWin_iff_line (board : Board) (player : Player) :
  checkWin board player = true <->
  line board player 0 1 2 \/ line board player 3 4 5 \/
  line board player 6 7 8 \/ line board player 0 3 6 \/
  line board player 1 4 7 \/ line board player 2 5 8 \/
  line board player 0 4 8 \/ line board player 2 4 6.
Proof.
  unfold checkWin, WIN_COMBINATIONS, line. cbn [existsb forallb].
  rewrite !andb_true_r, orb_false_r.
  rewrite !orb_true_iff, !andb_true_iff, !holds_lookup.
  tauto.
Qed.

(** ** C2: the scoring convention *)

(** C2.  For every board and depth: when O holds a completed line the
    evaluation returns [10 - depth]; otherwise, when X holds one, it
    returns [-10 + depth]; otherwise, when no cell is empty, it returns 0.
    In each case the array is left as it was. *)
Theorem minimax_terminal_score (fuel : nat) (board : Board) (depth : Z)
    (isMaximizing : bool) (aiPlayer : Player) :
  (checkWin board O = true ->
   minimax (S fuel) board depth isMaximizing aiPlayer
   = Some (Fin (10 - depth), board)) /\
  (checkWin board O = false -> checkWin board X = true ->
   minimax (S fuel) board depth isMaximizing aiPlayer
   = Some (Fin (-10 + depth), board)) /\
  (checkWin board O = false -> checkWin board X = false ->
   (forall i, board !! i <> Some None) ->
   minimax (S fuel) board depth isMaximizing aiPlayer
   = Some (Fin 0, board)).
Proof.
  rewrite minimax_S. repeat split.
  - by intros ->.
  - by intros -> ->.
  - intros -> -> H. apply none_null_lookup in H. by rewrite H.
Qed.

Lemma minimax_terminal_score_witness :
  minimax 1 boardOwins 3 false O = Some (Fin 7, boardOwins) /\
  minimax 1 boardXwins 4 true O = Some (Fin (-6), boardXwins) /\
  minimax 1 boardDrawn 8 true O = Some (Fin 0, boardDrawn).
Proof.
  split; [|split].
  - apply (minimax_terminal_score 0 boardOwins 3 false O). reflexivity.
  - apply (minimax_terminal_score 0 boardXwins 4 true O); reflexivity.
  - apply (minimax_terminal_score 0 boardDrawn 8 true O); try reflexivity.
    intros i. do 9 (destruct i as [|i]; [discriminate|]). discriminate.
Defined.

(** ** C9: termination *)

(** C9.  [minimax] is total: every recursive call is made on an array
    with one empty cell fewer, an array without empty cells is answered
    without recursion (one unit of fuel), and so for every board, depth,
    role and mark the search returns - the same score for every amount of
    fuel above the number of empty cells. *)
Theorem minimax_terminates (board : Board) (depth : Z) (isMaximizing : bool)
    (aiPlayer : Player) :
  (forall i mark, is_null board i = true ->
     (count_null (<[i := Some mark]> board) < count_null board)%nat) /\
  (count_null board = 0%nat ->
     exists s, minimax 1 board depth isMaximizing aiPlayer = Some (s, board)) /\
  (exists s, forall fuel, (count_null board < fuel)%nat ->
     minimax fuel board depth isMaximizing aiPlayer = Some (s, board)).
Proof.
  split; [|split].
  - intros i mark Hi. pose proof (count_null_place board i mark Hi). lia.
  - intros H0. apply minimax_total. lia.
  - apply minimax_enough.
Qed.

Lemma minimax_terminates_witness :
  (count_null (<[5%nat := Some O]> boardXwins) < count_null boardXwins)%nat /\
  (exists s, minimax 1 boardDrawn 0 true X = Some (s, boardDrawn)) /\
  (exists s, forall fuel, (count_null emptyBoard < fuel)%nat ->
     minimax fuel emptyBoard 0 true O = Some (s, emptyBoard)).
Proof.
  split; [|split].
  - apply (minimax_terminates boardXwins 0 true O). reflexivity.
  - apply (minimax_terminates boardDrawn 0 true X). reflexivity.
  - apply (minimax_terminates emptyBoard 0 true O).
Defined.

(** ** C10: the [aiPlayer] argument *)

(** C10.  The result of [minimax] does not depend on its [aiPlayer]
    argument: with the same fuel, board, depth and role, the call with X
    and the call with O return the same score and array. *)
Theorem minimax_ignores_aiPlayer (fuel : nat) (board : Board) (depth : Z)
    (isMaximizing : bool) :
  minimax fuel board depth isMaximizing X
  = minimax fuel board depth isMaximizing O.
Proof.
  revert board depth isMaximizing.
  induction fuel as [|fuel IH]; intros b d m; [done|].
  rewrite !minimax_S.
  destruct (checkWin b O); [done|].
  destruct (checkWin b X); [done|].
  destruct (none_null b); [done|].
  destruct m; apply for_each_ext; intros i st; apply search_cell_ext;
    intros b1; apply IH.
Qed.

(** ** C5: the frame property *)

(** C5.  For every board and mark, [getBestMove] returns (with the fuel
    of [search_fuel]) and leaves the array it was given as it found it;
    whatever the fuel, a call that returns has restored every cell; and
    the same holds for the move selection of [makeAiMove]. *)
Theorem getBestMove_restores_board (b : Board) (aiPlayer : Player) :
  (exists move,
     getBestMove (search_fuel b) b aiPlayer = Some (move, b)) /\
  (forall fuel move board',
     getBestMove fuel b aiPlayer = Some (move, board') ->
     board' = b /\ forall i, board' !! i = b !! i) /\
  (forall st coin r move board',
     aiMoveIndex st coin r = Some (move, board') ->
     board' = board st /\ forall i, board' !! i = board st !! i).
Proof.
  split; [|split].
  - apply getBestMove_total. unfold search_fuel. lia.
  - intros fuel move board' H. apply getBestMove_frame in H. by subst.
  - intros st coin r move board' H. apply aiMoveIndex_frame in H. by subst.
Qed.

Lemma getBestMove_restores_board_witness :
  (exists move,
     getBestMove (search_fuel boardMidGame) boardMidGame O
     = Some (move, boardMidGame)) /\
  (getBestMove 6 boardMidGame O = Some (2, boardMidGame) /\
   boardMidGame = boardMidGame /\
   forall i, boardMidGame !! i = boardMidGame !! i) /\
  (aiMoveIndex hardMidGame 0 0 = Some (2, boardMidGame) /\
   boardMidGame = board hardMidGame /\
   forall i, boardMidGame !! i = board hardMidGame !! i).
Proof.
  pose proof (getBestMove_restores_board boardMidGame O) as (H1 & H2 & H3).
  split; [exact H1|]. split; (split; [reflexivity|]).
  - apply (H2 6%nat 2). reflexivity.
  - apply (H3 hardMidGame 0%Q 0%Q 2). reflexivity.
Defined.

(** ** The order on scores *)

Ltac score_order :=
  repeat match goal with s : Score |- _ => destruct s end;
  unfold score_le, Math_max, Math_min, score_gt in *;
  repeat match goal with
         | H : (_ <? _) = true |- _ => apply Z.ltb_lt in H
         | H : (_ <? _) = false |- _ => apply Z.ltb_ge in H
         | |- (_ <? _) = true => apply Z.ltb_lt
         | |- (_ <? _) = false => apply Z.ltb_ge
         end;
  try done; try lia.

Lemma score_le_refl (a : Score) : score_le a a.
Proof. score_order. Qed.

Lemma score_le_trans (a b c : Score) :
  score_le a b -> score_le b c -> score_le a c.
Proof. intros H1 H2. score_order. Qed.

Lemma score_gt_le (a b : Score) : score_gt a b = true -> score_le b a.
Proof. intros H. score_order. Qed.

Lemma score_gt_trans (a b c : Score) :
  score_gt a b = true -> score_gt b c = true -> score_gt a c = true.
Proof. intros H1 H2. score_order. Qed.

Lemma score_gt_le_trans (a b c : Score) :
  score_gt a b = true -> score_le c b -> score_gt a c = true.
Proof. intros H1 H2. score_order. Qed.

Lemma score_le_antisym (a b : Score) :
  score_le a b -> score_le b a -> a = b.
Proof. intros H1 H2. score_order. f_equal. lia. Qed.

(** ** What the root scan computes *)

(** Scanning the cells [lo, lo + n) from the running pair [(best, move)]:
    the final best score bounds the start and every scanned empty cell;
    and either no cell improved on [best], or the final move is the
    lowest scanned empty cell attaining the final best score. *)
Lemma scan_cons (sc : nat -> Score) (b : Board) (i : nat)
    (idxs : list nat) (st : Score * Z) :
  scan sc b (i :: idxs) st = scan sc b idxs (scan_cell sc b st i).
Proof. reflexivity. Qed.

Lemma scan_seq (sc : nat -> Score) (b : Board) :
  forall (n lo : nat) (best : Score) (move : Z) (r : Score * Z),
    scan sc b (seq lo n) (best, move) = r ->
    score_le best (fst r) /\
    (forall j, (lo <= j < lo + n)%nat -> is_null b j = true ->
               score_le (sc j) (fst r)) /\
    (r = (best, move) \/
     exists m, (lo <= m < lo + n)%nat /\ is_null b m = true /\
               r = (sc m, Z.of_nat m) /\ score_gt (sc m) best = true /\
               forall j, (lo <= j < m)%nat -> is_null b j = true ->
                         score_gt (sc m) (sc j) = true).
Proof.
  induction n as [|n IH]; intros lo best move r Hr.
  - subst r. simpl. split; [apply score_le_refl|]. split; [intros; lia|by left].
  - cbn [seq] in Hr. rewrite scan_cons in Hr.
    unfold scan_cell in Hr. cbn [fst] in Hr.
    destruct (is_null b lo) eqn:Hlo;
      [destruct (score_gt (sc lo) best) eqn:Hgt|].
    + destruct (IH _ _ _ _ Hr) as (Hle & Hall & Hm).
      split; [|split].
      * eapply score_le_trans; [|exact Hle]. by apply score_gt_le.
      * intros j Hj Hnull. destruct (decide (j = lo)) as [->|Hne]; [done|].
        apply Hall; [lia|done].
      * right. destruct Hm as [Hr' | (m & Hrange & Hnull & Hr' & Hgm & Hlow)].
        -- exists lo. repeat split; try done; try lia.
        -- exists m. repeat split; try done; try lia.
           ++ eapply score_gt_trans; eauto.
           ++ intros j Hj Hjnull. destruct (decide (j = lo)) as [->|Hne]; [done|].
              apply Hlow; [lia|done].
    + destruct (IH _ _ _ _ Hr) as (Hle & Hall & Hm).
      split; [done|]. split.
      * intros j Hj Hnull. destruct (decide (j = lo)) as [->|Hne].
        -- eapply score_le_trans; [exact Hgt|exact Hle].
        -- apply Hall; [lia|done].
      * destruct Hm as [Hr' | (m & Hrange & Hnull & Hr' & Hgm & Hlow)]; [by left|].
        right. exists m. repeat split; try done; try lia.
        intros j Hj Hjnull. destruct (decide (j = lo)) as [->|Hne].
        -- eapply score_gt_le_trans; [exact Hgm|exact Hgt].
        -- apply Hlow; [lia|done].
    + destruct (IH _ _ _ _ Hr) as (Hle & Hall & Hm).
      split; [done|]. split.
      * intros j Hj Hnull. destruct (decide (j = lo)) as [->|Hne]; [congruence|].
        apply Hall; [lia|done].
      * destruct Hm as [Hr' | (m & Hrange & Hnull & Hr' & Hgm & Hlow)]; [by left|].
        right. exists m. repeat split; try done; try lia.
        intros j Hj Hjnull. destruct (decide (j = lo)) as [->|Hne]; [congruence|].
        apply Hlow; [lia|done].
Qed.

(** ** Scores are finite when every empty cell is scanned *)

Lemma scanned_length (board : Board) :
  (length board <= 9)%nat -> scanned board.
Proof. intros Hlen i Hi. apply is_null_lt in Hi. lia. Qed.

Lemma scanned_place (board : Board) (i : nat) (mark : Player) :
  scanned board -> scanned (<[i := Some mark]> board).
Proof. intros H j Hj. apply H. eapply is_null_place; eauto. Qed.

Lemma minimax_finite (fuel : nat) :
  forall board depth isMaximizing aiPlayer s board',
    scanned board ->
    minimax fuel board depth isMaximizing aiPlayer = Some (s, board') ->
    finite s.
Proof.
  induction fuel as [|fuel IH]; intros b d m a s b' Hsc H; [done|].
  rewrite minimax_S in H.
  destruct (checkWin b O); [inversion H; by eexists|].
  destruct (checkWin b X); [inversion H; by eexists|].
  destruct (none_null b) eqn:Hfull; [inversion H; by eexists|].
  destruct (none_null_false b Hfull) as [i Hi].
  assert (Hin : In i cells) by (apply in_seq; specialize (Hsc i Hi); lia).
  assert (Hframe : forall d' m' b0 s0 b0',
             minimax fuel b0 d' m' a = Some (s0, b0') -> b0' = b0).
  { intros; eapply minimax_frame; eauto. }
  destruct m.
  - eapply (search_loop_finite _ O Math_max (Hframe _ _) NegInf) in H; eauto.
    + intros z acc [->|[z' ->]]; [by eexists|].
      unfold Math_max. destruct (score_gt _ _); by eexists.
    + intros j s1 b1 Hj Hr. eapply IH; [|exact Hr]. by apply scanned_place.
  - eapply (search_loop_finite _ X Math_min (Hframe _ _) PosInf) in H; eauto.
    + intros z acc [->|[z' ->]]; [by eexists|].
      unfold Math_min. destruct (score_gt _ _); by eexists.
    + intros j s1 b1 Hj Hr. eapply IH; [|exact Hr]. by apply scanned_place.
Qed.

Lemma rootScore_finite (fuel : nat) (board : Board) (aiPlayer : Player)
    (i : nat) :
  scanned board -> is_null board i = true -> (count_null board <= fuel)%nat ->
  finite (rootScore fuel board aiPlayer i).
Proof.
  intros Hsc Hi Hfuel. unfold rootScore.
  destruct (minimax_total fuel (<[i := Some aiPlayer]> board) 0 false aiPlayer)
    as [s Hs].
  { pose proof (count_null_place board i aiPlayer Hi). lia. }
  rewrite Hs. eapply minimax_finite; [|exact Hs]. by apply scanned_place.
Qed.

(** ** C4: the tie-break of the root loop *)

(** C4.  On a nine-cell board with an empty cell and a mark (so past the
    empty-board shortcut), [getBestMove] returns an empty cell [m] such
    that no legal move has a greater minimax score and every legal move
    with the same score has an index at least [m]: the lowest index among
    the best moves.  The score of a move [j] is what [minimax] returns,
    at depth 0 in the minimizing role, on the board with the mark placed
    on [j]. *)
Theorem getBestMove_lowest_best (fuel : nat) (b : Board) (aiPlayer : Player) :
  length b = 9%nat ->
  all_null b = false ->
  (exists i, b !! i = Some None) ->
  (count_null b <= fuel)%nat ->
  exists m : nat,
    getBestMove fuel b aiPlayer = Some (Z.of_nat m, b) /\
    b !! m = Some None /\
    (forall j, b !! j = Some None ->
       minimax fuel (<[j := Some aiPlayer]> b) 0 false aiPlayer
       = Some (rootScore fuel b aiPlayer j, <[j := Some aiPlayer]> b)) /\
    (forall j, b !! j = Some None ->
       score_le (rootScore fuel b aiPlayer j) (rootScore fuel b aiPlayer m)) /\
    (forall j, b !! j = Some None ->
       rootScore fuel b aiPlayer j = rootScore fuel b aiPlayer m ->
       (m <= j)%nat).
Proof.
  intros Hlen Hmarks [i Hi] Hfuel.
  assert (Hsc : scanned b) by (apply scanned_length; lia).
  apply is_null_lookup in Hi.
  unfold getBestMove. rewrite Hmarks, rootSearch_scan by done.
  set (sc := rootScore fuel b aiPlayer).
  destruct (scan_seq sc b 9 0 NegInf (-1) _ eq_refl) as (_ & Hall & Hm).
  fold cells in Hm, Hall.
  destruct Hm as [Hr | (m & Hrange & Hnull & Hr & Hgm & Hlow)].
  - exfalso. specialize (Hall i). rewrite Hr in Hall. cbn [fst] in Hall.
    destruct (rootScore_finite fuel b aiPlayer i Hsc Hi Hfuel) as [z Hz].
    fold sc in Hz. rewrite Hz in Hall.
    specialize (Hsc i Hi). unfold score_le in Hall. simpl in Hall.
    assert (true = false) by (apply Hall; [lia|done]). done.
  - exists m. rewrite Hr in *. cbn [fst snd] in *.
    split; [done|]. split; [by apply is_null_lookup|]. split; [|split].
    + intros j Hj. apply is_null_lookup in Hj. subst sc. unfold rootScore.
      destruct (minimax_total fuel (<[j := Some aiPlayer]> b) 0 false aiPlayer)
        as [s Hs]; [|by rewrite Hs].
      pose proof (count_null_place b j aiPlayer Hj). lia.
    + intros j Hj. apply is_null_lookup in Hj. apply Hall; [|done].
      specialize (Hsc j Hj). lia.
    + intros j Hj Heq. apply is_null_lookup in Hj.
      destruct (decide (m <= j)%nat) as [|Hlt]; [done|]. exfalso.
      assert (Hgt : score_gt (sc m) (sc j) = true) by (apply Hlow; [lia|done]).
      rewrite Heq in Hgt. pose proof (score_le_refl (sc m)) as Hrefl.
      unfold score_le in Hrefl. congruence.
Qed.

Lemma getBestMove_lowest_best_witness :
  exists m : nat,
    getBestMove 6 boardCorners O = Some (Z.of_nat m, boardCorners) /\
    boardCorners !! m = Some None /\
    (forall j, boardCorners !! j = Some None ->
       minimax 6 (<[j := Some O]> boardCorners) 0 false O
       = Some (rootScore 6 boardCorners O j, <[j := Some O]> boardCorners)) /\
    (forall j, boardCorners !! j = Some None ->
       score_le (rootScore 6 boardCorners O j) (rootScore 6 boardCorners O m)) /\
    (forall j, boardCorners !! j = Some None ->
       rootScore 6 boardCorners O j = rootScore 6 boardCorners O m ->
       (m <= j)%nat).
Proof.
  apply (getBestMove_lowest_best 6 boardCorners O).
  - reflexivity.
  - reflexivity.
  - exists 1%nat. reflexivity.
  - vm_compute. lia.
Defined.

(** ** C3: a board without a legal move *)

Lemma root_loop_full (fuel : nat) (aiPlayer : Player) (b : Board) :
  (forall i, is_null b i = false) ->
  forall idxs st,
    snd st = b -> for_each (root_cell fuel aiPlayer) idxs st = Some st.
Proof.
  intros Hfull. induction idxs as [|i idxs IH]; intros [[best move] b1] Hb;
    simpl in *; [done|].
  subst b1. rewrite Hfull. by apply IH.
Qed.

Lemma filter_imap_none (f : nat -> Z) (b : Board) :
  none_null b = true ->
  List.filter (fun i => negb (Z.eqb i (-1)))
    (imap (fun i v => if cell_is_null v then f i else -1) b) = [].
Proof.
  revert f. induction b as [|c b IH]; intros f H; simpl in *; [done|].
  apply andb_true_iff in H as [Hc Hb]. destruct c; [|done]. simpl.
  apply (IH (fun i => f (S i)) Hb).
Qed.

Lemma is_null_false_lookup (b : Board) :
  (forall i, b !! i <> Some None) -> forall i, is_null b i = false.
Proof.
  intros H i. destruct (is_null b i) eqn:E; [|done].
  apply is_null_lookup in E. by destruct (H i).
Qed.

Lemma getBestMove_full (fuel : nat) (b : Board) (aiPlayer : Player) :
  b <> [] -> (forall i, b !! i <> Some None) ->
  getBestMove fuel b aiPlayer = Some (-1, b).
Proof.
  intros Hne Hfull. unfold getBestMove.
  assert (all_null b = false) as ->.
  { destruct b as [|c b]; [done|]. simpl.
    destruct c; [done|]. by destruct (Hfull 0%nat). }
  unfold rootSearch. rewrite (root_loop_full fuel aiPlayer b); try done.
  by apply is_null_false_lookup.
Qed.

Lemma getRandomMove_full (b : Board) (r : Q) :
  (forall i, b !! i <> Some None) -> getRandomMove b r = Some (-1).
Proof.
  intros Hfull. apply none_null_lookup in Hfull.
  unfold getRandomMove, available, mark_available.
  by rewrite (filter_imap_none (fun i => Z.of_nat i) b Hfull).
Qed.

(** C3, as the code has it.  On a non-empty array without an empty cell,
    [getBestMove] returns the index -1 and leaves the array as it was,
    [getRandomMove] returns -1 for every draw, and [makeAiMove], which
    skips the move on -1, leaves the session state unchanged. *)
Theorem no_legal_move_returns_minus_one (fuel : nat) (b : Board)
    (aiPlayer : Player) (coin r : Q) :
  b <> [] -> (forall i, b !! i <> Some None) ->
  getBestMove fuel b aiPlayer = Some (-1, b) /\
  getRandomMove b r = Some (-1) /\
  (forall p a m s, makeAiMove (mkState b p a m s) coin r
                   = Some (mkState b p a m s)).
Proof.
  intros Hne Hfull. split; [by apply getBestMove_full|].
  split; [by apply getRandomMove_full|].
  intros p a m s. unfold makeAiMove, aiMoveIndex. cbn [isGameActive board].
  destruct a; [|done]. cbn [negb].
  rewrite (getBestMove_full _ b O Hne Hfull), (getRandomMove_full b r Hfull).
  destruct (getDifficulty _); [done| |done].
  by destruct (negb _).
Qed.

Lemma no_legal_move_returns_minus_one_witness :
  getBestMove 1 boardDrawn O = Some (-1, boardDrawn) /\
  getRandomMove boardDrawn (1 # 3) = Some (-1) /\
  (forall p a m s, makeAiMove (mkState boardDrawn p a m s) (3 # 4) (1 # 3)
                   = Some (mkState boardDrawn p a m s)).
Proof.
  apply (no_legal_move_returns_minus_one 1 boardDrawn O (3 # 4) (1 # 3)).
  - discriminate.
  - intros i. do 9 (destruct i as [|i]; [discriminate|]). discriminate.
Defined.

(** C3, as the specification states it, fails: on the drawn board, which
    has no legal move, both policies return normally, and what they return
    is the sentinel index -1. *)
Lemma full_board_returns_sentinel :
  (forall i, boardDrawn !! i <> Some None) /\
  getBestMove (search_fuel boardDrawn) boardDrawn O = Some (-1, boardDrawn) /\
  getRandomMove boardDrawn (1 # 2) = Some (-1).
Proof.
  split; [|split; reflexivity].
  intros i. do 9 (destruct i as [|i]; [discriminate|]). discriminate.
Qed.

(** ** C8: the random policy with one legal move *)

Lemma none_null_is_null (b : Board) :
  (forall i, is_null b i = false) -> none_null b = true.
Proof.
  intros H. apply none_null_lookup. intros i Hi.
  apply is_null_lookup in Hi. specialize (H i). congruence.
Qed.

Lemma filter_imap_one (f : nat -> Z) (b : Board) (i : nat) :
  (forall j, f j <> -1) ->
  is_null b i = true -> (forall j, is_null b j = true -> j = i) ->
  List.filter (fun i => negb (Z.eqb i (-1)))
    (imap (fun i v => if cell_is_null v then f i else -1) b) = [f i].
Proof.
  revert f i. induction b as [|c b IH]; intros f i Hf Hi Huniq; [done|].
  destruct i as [|i].
  - destruct c; [done|]. simpl.
    destruct (Z.eqb_spec (f 0%nat) (-1)) as [E|_]; [by destruct (Hf 0%nat)|].
    simpl. f_equal. apply (filter_imap_none (fun j => f (S j))).
    apply none_null_is_null. intros j.
    destruct (is_null b j) eqn:E; [|done]. by specialize (Huniq (S j) E).
  - destruct c as [p|]; [|by specialize (Huniq 0%nat eq_refl)]. simpl.
    apply (IH (fun j => f (S j)) i); [done|done|].
    intros j Hj. specialize (Huniq (S j) Hj). lia.
Qed.

Lemma random_index_one (r : Q) :
  (0 <= r)%Q -> (r < 1)%Q -> random_index r 1 = 0.
Proof.
  intros H0 H1. unfold random_index.
  assert (E : (r * inject_Z (Z.of_nat 1) == r)%Q) by (simpl; ring).
  rewrite (Qfloor_comp _ _ E).
  pose proof (Qfloor_le r) as Hle. pose proof (Qlt_floor r) as Hlt.
  assert (Hlo : (0 < Qfloor r + 1)%Z).
  { rewrite Zlt_Qlt. eapply Qle_lt_trans; [exact H0|exact Hlt]. }
  assert (Hhi : (Qfloor r < 1)%Z).
  { rewrite Zlt_Qlt. eapply Qle_lt_trans; [exact Hle|exact H1]. }
  lia.
Qed.

(** C8.  On a board with exactly one empty cell [i], for every draw [r] of
    the random source (a number of [0, 1)), [getRandomMove] returns [i],
    and so does the move selection of [makeAiMove] at the easy
    difficulty. *)
Theorem getRandomMove_single_move (b : Board) (i : nat) (r : Q) :
  b !! i = Some None -> (forall j, b !! j = Some None -> j = i) ->
  (0 <= r)%Q -> (r < 1)%Q ->
  getRandomMove b r = Some (Z.of_nat i) /\
  (forall p a m s coin,
     getDifficulty (mkState b p a m s) = easy ->
     aiMoveIndex (mkState b p a m s) coin r = Some (Z.of_nat i, b)).
Proof.
  intros Hi Huniq H0 H1.
  assert (Hrandom : getRandomMove b r = Some (Z.of_nat i)).
  { unfold getRandomMove, available, mark_available.
    rewrite (filter_imap_one (fun j => Z.of_nat j) b i).
    - cbn [length Nat.eqb]. by rewrite random_index_one.
    - intros j. lia.
    - by apply is_null_lookup.
    - intros j Hj. apply Huniq. by apply is_null_lookup. }
  split; [done|].
  intros p a m s coin Heasy. unfold aiMoveIndex. rewrite Heasy.
  cbn [board]. by rewrite Hrandom.
Qed.

Lemma getRandomMove_single_move_witness :
  getRandomMove boardOneLeft (7 # 8) = Some 5 /\
  (forall p a m s coin,
     getDifficulty (mkState boardOneLeft p a m s) = easy ->
     aiMoveIndex (mkState boardOneLeft p a m s) coin (7 # 8)
     = Some (5, boardOneLeft)).
Proof.
  apply (getRandomMove_single_move boardOneLeft 5 (7 # 8)).
  - reflexivity.
  - intros j. do 9 (destruct j as [|j]; [by (discriminate || reflexivity)|]).
    discriminate.
  - discriminate.
  - reflexivity.
Defined.

(** ** C6: the empty-board shortcut *)

(** The root loop on the empty board: every opening has score 0. *)
Lemma rootScore_empty :
  map (rootScore (search_fuel emptyBoard) emptyBoard O) cells
  = replicate 9 (Fin 0).
Proof. vm_compute. reflexivity. Qed.

Lemma scan_ext (sc1 sc2 : nat -> Score) (b : Board) (idxs : list nat) :
  (forall i, In i idxs -> sc1 i = sc2 i) ->
  forall st, scan sc1 b idxs st = scan sc2 b idxs st.
Proof.
  induction idxs as [|i idxs IH]; intros H st; [done|].
  rewrite !scan_cons. unfold scan_cell.
  rewrite (H i) by (by left). apply IH. intros j Hj. apply H. by right.
Qed.

Lemma map_constant {A B : Type} (f : A -> B) (c : B) (l : list A) :
  map f l = replicate (length l) c -> forall x, In x l -> f x = c.
Proof.
  induction l as [|a l IH]; intros H x Hx; [done|].
  simpl in H. injection H as Ha Hl. destruct Hx as [<-|Hx]; eauto.
Qed.

Lemma rootScore_empty_cell (j : nat) :
  In j cells -> rootScore (search_fuel emptyBoard) emptyBoard O j = Fin 0.
Proof. apply (map_constant _ (Fin 0) cells). exact rootScore_empty. Qed.

(** The root loop on the empty board keeps the first opening. *)
Lemma rootSearch_empty :
  rootSearch (search_fuel emptyBoard) emptyBoard O = Some (0, emptyBoard).
Proof.
  rewrite rootSearch_scan by (unfold search_fuel; lia).
  rewrite (scan_ext _ (fun _ => Fin 0) emptyBoard cells rootScore_empty_cell).
  reflexivity.
Qed.

(** The values of the nine openings, as [minimax] returns them. *)
Lemma cell_scores_empty :
  Forall (fun j =>
            minimax (search_fuel emptyBoard) (<[j := Some O]> emptyBoard)
                    0 false O
            = Some (Fin 0, <[j := Some O]> emptyBoard)) cells.
Proof.
  apply List.Forall_forall. intros j Hj.
  pose proof (rootScore_empty_cell j Hj) as Hs. unfold rootScore in Hs.
  destruct (minimax_total (search_fuel emptyBoard) (<[j := Some O]> emptyBoard)
              0 false O) as [s Hm].
  { apply in_seq in Hj.
    assert (Hnull : is_null emptyBoard j = true).
    { apply is_null_lookup. unfold emptyBoard.
      apply lookup_replicate_2. lia. }
    pose proof (count_null_place emptyBoard j O Hnull) as Hc.
    unfold search_fuel. lia. }
  rewrite Hm in Hs |- *. by subst s.
Qed.

(** C6, as the code has it.  On the board without marks [getBestMove]
    returns exactly index 4, whatever the mark and the fuel, and leaves
    the board as it was.  The root loop on that board gives every one of
    the nine cells the score 0 - the call of [minimax] on the board with
    the mark in that cell returns 0 and the board - and so returns index
    0, the first one: the shortcut returns a move with the same, best
    score as the loop, not the same move. *)
Theorem empty_board_shortcut (fuel : nat) (aiPlayer : Player) :
  getBestMove fuel emptyBoard aiPlayer = Some (4, emptyBoard) /\
  rootSearch (search_fuel emptyBoard) emptyBoard O = Some (0, emptyBoard) /\
  rootScore (search_fuel emptyBoard) emptyBoard O 4
  = rootScore (search_fuel emptyBoard) emptyBoard O 0 /\
  (forall j, (j < 9)%nat ->
     score_le (rootScore (search_fuel emptyBoard) emptyBoard O j)
              (rootScore (search_fuel emptyBoard) emptyBoard O 4)) /\
  map (rootScore (search_fuel emptyBoard) emptyBoard O) cells
  = replicate 9 (Fin 0) /\
  Forall (fun j =>
            minimax (search_fuel emptyBoard) (<[j := Some O]> emptyBoard)
                    0 false O
            = Some (Fin 0, <[j := Some O]> emptyBoard)) cells.
Proof.
  split; [reflexivity|]. split; [apply rootSearch_empty|].
  assert (H4 : In 4%nat cells) by (apply in_seq; lia).
  assert (H0 : In 0%nat cells) by (apply in_seq; lia).
  rewrite !(rootScore_empty_cell 4 H4), (rootScore_empty_cell 0 H0).
  split; [done|]. split.
  - intros j Hj.
    rewrite rootScore_empty_cell by (apply in_seq; lia). done.
  - split; [exact rootScore_empty|exact cell_scores_empty].
Qed.

(** C6, as the specification states it, fails: on the empty board the
    shortcut returns 4 and the root loop returns 0. *)
Lemma shortcut_is_not_the_search :
  exists m1 m2,
    getBestMove (search_fuel emptyBoard) emptyBoard O = Some (m1, emptyBoard) /\
    rootSearch (search_fuel emptyBoard) emptyBoard O = Some (m2, emptyBoard) /\
    m1 <> m2.
Proof.
  exists 4, 0. split; [reflexivity|]. split; [apply rootSearch_empty|done].
Qed.

(** ** C1: the hard mode is never beaten *)

(** *** The tally does not influence the play *)

Lemma endGame_add_stats (w : Winner) (d : Stats) (st : GameState) :
  endGame w (add_stats d st) = add_stats d (endGame w st).
Proof.
  destruct st as [b p a m [x o t]], d as [dx do dt].
  destruct w as [[]|]; unfold endGame, add_stats; cbn;
    do 2 f_equal; lia.
Qed.

Lemma makeMove_add_stats (i : nat) (p : Player) (d : Stats) (st : GameState) :
  makeMove i p (add_stats d st) = add_stats d (makeMove i p st).
Proof.
  unfold makeMove. cbn [board add_stats currentPlayer isGameActive mode stats].
  destruct (checkWin _ p).
  - rewrite <- endGame_add_stats. reflexivity.
  - destruct (none_null _); [|reflexivity].
    rewrite <- endGame_add_stats. reflexivity.
Qed.

Lemma makeAiMove_add_stats (d : Stats) (st : GameState) (coin r : Q) :
  makeAiMove (add_stats d st) coin r = add_stats d <$> makeAiMove st coin r.
Proof.
  unfold makeAiMove.
  replace (aiMoveIndex (add_stats d st) coin r) with (aiMoveIndex st coin r)
    by reflexivity.
  cbn [add_stats isGameActive].
  destruct (negb (isGameActive st)); [reflexivity|].
  destruct (aiMoveIndex st coin r) as [[moveIndex b]|]; [|reflexivity].
  destruct (negb (moveIndex =? -1)); [|reflexivity].
  cbn [fmap option_fmap option_map]. f_equal.
  apply (makeMove_add_stats _ O d
           (mkState b (currentPlayer st) (isGameActive st) (mode st) (stats st))).
Qed.

Lemma handleCellClick_add_stats (c : Click) (d : Stats) (st : GameState) :
  handleCellClick c (add_stats d st) = add_stats d <$> handleCellClick c st.
Proof.
  unfold handleCellClick. cbn [add_stats isGameActive board currentPlayer].
  destruct (negb (isGameActive st) || negb (is_null (board st) (cell c)));
    [reflexivity|].
  change (makeMove (cell c) (currentPlayer st)
            (mkState (board st) (currentPlayer st) (isGameActive st) (mode st)
               (mkStats (xWins (stats st) + xWins d)
                  (oWins (stats st) + oWins d) (draws (stats st) + draws d))))
    with (makeMove (cell c) (currentPlayer st) (add_stats d st)).
  rewrite makeMove_add_stats.
  set (st1 := makeMove (cell c) (currentPlayer st) st).
  replace (isAiTurn (add_stats d st1)) with (isAiTurn st1) by reflexivity.
  cbn [add_stats isGameActive].
  destruct (isGameActive st1 && isAiTurn st1); [|reflexivity].
  apply (makeAiMove_add_stats d
           (mkState (board st1) (currentPlayer st1) true (mode st1) (stats st1))).
Qed.

Lemma play_add_stats (clicks : list Click) (d : Stats) :
  forall st, play clicks (add_stats d st) = add_stats d <$> play clicks st.
Proof.
  induction clicks as [|c clicks IH]; intros st; [reflexivity|].
  cbn [play]. rewrite handleCellClick_add_stats.
  destruct (handleCellClick c st) as [st'|]; [apply IH|reflexivity].
Qed.

(** *** The exploration covers every session *)

Lemma handleCellClick_noop (c : Click) (st : GameState) :
  isGameActive st && is_null (board st) (cell c) = false ->
  handleCellClick c st = Some st.
Proof.
  intros H. unfold handleCellClick.
  destruct (isGameActive st), (is_null (board st) (cell c)); done.
Qed.

Lemma makeMove_mode (i : nat) (p : Player) (st : GameState) :
  mode (makeMove i p st) = mode st.
Proof.
  unfold makeMove. cbn [board].
  destruct (checkWin _ p); [reflexivity|].
  destruct (none_null _); reflexivity.
Qed.

(** In the hard mode the reply does not read the draws. *)
Lemma handleCellClick_hard (c : Click) (st : GameState) :
  mode st = pvch ->
  handleCellClick c st = handleCellClick (noDraws (cell c)) st.
Proof.
  intros Hmode. unfold handleCellClick. cbn [noDraws cell coin draw].
  destruct (negb (isGameActive st) || negb (is_null (board st) (cell c)));
    [reflexivity|].
  set (st1 := makeMove (cell c) (currentPlayer st) st).
  assert (Hm1 : mode st1 = pvch) by (subst st1; by rewrite makeMove_mode).
  destruct (isGameActive st1 && isAiTurn st1); [|reflexivity].
  unfold makeAiMove, aiMoveIndex, getDifficulty. cbn [mode board isGameActive].
  rewrite Hm1. reflexivity.
Qed.

Lemma explore_eq (n : nat) (st : GameState) :
  explore n st =
  verdict_ok st &&
  forallb
    (fun i =>
       if isGameActive st && is_null (board st) i then
         match n with
         | 0%nat => false
         | S n' =>
             match handleCellClick (noDraws i) st with
             | Some st' => explore n' st'
             | None => false
             end
         end
       else true)
    (seq 0 (length (board st))).
Proof. destruct n; reflexivity. Qed.

Lemma verdict_ok_hard (st : GameState) :
  verdict_ok st = true -> mode st = pvch.
Proof.
  unfold verdict_ok. rewrite !andb_true_iff. intros [[_ H] _].
  by destruct (mode st).
Qed.

Lemma explore_sound (clicks : list Click) :
  forall n st, explore n st = true ->
    exists st', play clicks st = Some st' /\ verdict_ok st' = true.
Proof.
  induction clicks as [|c clicks IH]; intros n st H.
  - exists st. rewrite explore_eq in H. apply andb_true_iff in H as [H _]. done.
  - cbn [play].
    destruct (isGameActive st && is_null (board st) (cell c)) eqn:E.
    + pose proof H as H'. rewrite explore_eq in H'.
      apply andb_true_iff in H' as [Hok Hall].
      rewrite handleCellClick_hard by (by apply verdict_ok_hard).
      rewrite forallb_forall in Hall. specialize (Hall (cell c)).
      rewrite E in Hall.
      assert (Hin : In (cell c) (seq 0 (length (board st)))).
      { apply in_seq. apply andb_true_iff in E as [_ E].
        apply is_null_lt in E. lia. }
      specialize (Hall Hin). destruct n as [|n]; [done|].
      destruct (handleCellClick (noDraws (cell c)) st) as [st'|]; [|done].
      by apply (IH n).
    + rewrite handleCellClick_noop by done. by apply (IH n).
Qed.

Lemma openGame_add_stats (opener : Player) (s0 : Stats) :
  openGame opener s0 = add_stats s0 <$> openGame opener zeroStats.
Proof.
  destruct s0 as [x o t]. destruct opener; [reflexivity|].
  unfold openGame. rewrite <- makeAiMove_add_stats. reflexivity.
Qed.

Lemma explore_hard (opener : Player) :
  exists st0, openGame opener zeroStats = Some st0 /\ explore 5 st0 = true.
Proof.
  destruct opener; eexists; (split; [reflexivity|]); vm_compute; reflexivity.
Qed.

(** C1.  In the hard mode, from the empty board and whatever the tally
    and whoever opens: X plays any cells it likes, O plays each time the
    move of [getBestMove].  After every sequence of clicks the session is
    in a state where X holds no line and has no win recorded, and the game
    is either still running, with the tally untouched, or over: with a
    line of O and one more win of O recorded, or with a full board
    without a line and one more draw recorded. *)
Theorem hard_mode_never_beaten (opener : Player) (s0 : Stats)
    (clicks : list Click) :
  exists st0 st,
    openGame opener s0 = Some st0 /\
    play clicks st0 = Some st /\
    checkWin (board st) X = false /\
    xWins (stats st) = xWins s0 /\
    ((isGameActive st = true /\ stats st = s0) \/
     (isGameActive st = false /\ checkWin (board st) O = true /\
      oWins (stats st) = oWins s0 + 1 /\ draws (stats st) = draws s0) \/
     (isGameActive st = false /\ checkWin (board st) O = false /\
      (forall i, board st !! i <> Some None) /\
      oWins (stats st) = oWins s0 /\ draws (stats st) = draws s0 + 1)).
Proof.
  destruct (explore_hard opener) as (st0 & Hopen & Hexplore).
  destruct (explore_sound clicks 5 _ Hexplore) as (st & Hplay & Hok).
  exists (add_stats s0 st0), (add_stats s0 st).
  split; [by rewrite openGame_add_stats, Hopen|].
  split; [by rewrite play_add_stats, Hplay|].
  unfold verdict_ok in Hok. rewrite !andb_true_iff in Hok.
  destruct Hok as [[[HX Hx] _] Hover].
  apply negb_true_iff in HX. apply Z.eqb_eq in Hx.
  destruct st as [b p a m [x o t]], s0 as [x0 o0 t0].
  cbn [add_stats board stats isGameActive xWins oWins draws] in *.
  split; [done|]. split; [lia|].
  destruct a.
  - left. rewrite !andb_true_iff, !Z.eqb_eq in Hover.
    destruct Hover as [[_ ->] ->]. subst x. done.
  - right. rewrite orb_true_iff, !andb_true_iff, !Z.eqb_eq in Hover.
    destruct Hover as [[[HO ->] ->] | [[[HO Hfull] ->] ->]].
    + left. repeat split; try done; lia.
    + right. apply negb_true_iff in HO.
      pose proof (proj1 (none_null_lookup b) Hfull) as Hcells.
      repeat split; try done; lia.
Qed.

(** Two hard-mode sessions, run: one that ends in a draw on a full
    board, one that O wins on the middle column. *)
Example session_drawn :
  play (map noDraws [0; 8; 7; 2; 3]%nat) (newGame pvch zeroStats)
  = Some (mkState boardDrawn X false pvch (mkStats 0 0 1)).
Proof. vm_compute. reflexivity. Qed.

Example session_won_by_O :
  play (map noDraws [0; 8; 5; 6; 1]%nat) (newGame pvch zeroStats)
  = Some (mkState
            [Some X; Some O; None; None; Some O; Some X; None; Some O; Some X]
            O false pvch (mkStats 0 1 0)).
Proof. vm_compute. reflexivity. Qed.

(** The two positions of the specification's scenarios: O completes its
    row at once, and O answers the two corners of X with an edge. *)
Example bestMove_completes_row :
  getBestMove (search_fuel boardMidGame) boardMidGame O
  = Some (2, boardMidGame).
Proof. vm_compute. reflexivity. Qed.

Example bestMove_against_corners :
  getBestMove (search_fuel boardCorners) boardCorners O
  = Some (1, boardCorners).
Proof. vm_compute. reflexivity. Qed.

(** Outside the nine-cell boards the root loop can miss the only legal
    move: it scans the indices 0 to 8, and on this ten-cell array the
    empty cell has index 9. *)
Example getBestMove_ten_cells :
  getBestMove 2 (boardDrawn ++ [None]) O = Some (-1, boardDrawn ++ [None]).
Proof. vm_compute. reflexivity. Qed.

(** * Further properties of the code *)

(** ** The winning line *)

(** X1.  [getWinningCombo] answers [null] exactly when [checkWin] is
    false, and a line it returns is one of the eight of the table, with
    its three cells holding the mark. *)
Theorem getWinningCombo_checkWin (b : Board) (player : Player) :
  (getWinningCombo b player = None <-> checkWin b player = false) /\
  (forall combo, getWinningCombo b player = Some combo ->
     In combo WIN_COMBINATIONS /\
     forall index, In index combo -> b !! index = Some (Some player)).
Proof.
  unfold getWinningCombo, checkWin. split.
  - split.
    + intros Hnone. apply not_true_is_false. intros Hex.
      apply existsb_exists in Hex as (combo & Hin & Hc).
      pose proof (find_none _ _ Hnone combo Hin) as Hf. cbv beta in Hf.
      congruence.
    + intros Hex. apply not_true_iff_false in Hex.
      destruct (find (fun combo => forallb (fun index => holds b player index)
                                           combo)
                     WIN_COMBINATIONS) as [combo|] eqn:Hfind; [|done].
      apply find_some in Hfind as [Hin Hc].
      destruct Hex. apply existsb_exists. eauto.
  - intros combo Hfind. apply find_some in Hfind as [Hin Hc].
    split; [done|]. intros index Hidx.
    rewrite forallb_forall in Hc. apply holds_lookup. by apply Hc.
Qed.

Lemma getWinningCombo_checkWin_witness :
  In [0; 1; 2]%nat WIN_COMBINATIONS /\
  forall index, In index [0; 1; 2]%nat ->
                boardOwins !! index = Some (Some O).
Proof.
  apply (proj2 (getWinningCombo_checkWin boardOwins O) [0; 1; 2]%nat).
  reflexivity.
Defined.

(** ** Lines and moves *)

Lemma holds_place_other (b : Board) (i j : nat) (p q : Player) :
  is_null b i = true -> p <> q ->
  holds (<[i := Some p]> b) q j = holds b q j.
Proof.
  intros Hi Hpq. unfold holds.
  destruct (decide (i = j)) as [->|Hne].
  - pose proof (is_null_lt _ _ Hi) as Hlt. apply is_null_lookup in Hi.
    rewrite list_lookup_insert_eq by done. rewrite Hi.
    destruct p, q; done.
  - by rewrite list_lookup_insert_ne.
Qed.

Lemma holds_place_mono (b : Board) (i j : nat) (p : Player) :
  is_null b i = true -> holds b p j = true ->
  holds (<[i := Some p]> b) p j = true.
Proof.
  intros Hi Hj. unfold holds in *.
  destruct (decide (i = j)) as [->|Hne].
  - apply is_null_lookup in Hi. rewrite Hi in Hj. done.
  - by rewrite list_lookup_insert_ne.
Qed.

Lemma checkWin_ext (b1 b2 : Board) (p : Player) :
  (forall j, holds b1 p j = holds b2 p j) -> checkWin b1 p = checkWin b2 p.
Proof.
  intros H. unfold checkWin. induction WIN_COMBINATIONS as [|combo l IH];
    [done|]. cbn [existsb]. rewrite IH. f_equal.
  induction combo as [|j combo IHc]; [done|]. cbn [forallb].
  by rewrite H, IHc.
Qed.

(** X2.  A mark placed on an empty cell neither completes nor breaks a
    line of the other mark, and keeps every line of its own mark. *)
Theorem checkWin_place (b : Board) (i : nat) (p q : Player) :
  b !! i = Some None ->
  (p <> q -> checkWin (<[i := Some p]> b) q = checkWin b q) /\
  (checkWin b p = true -> checkWin (<[i := Some p]> b) p = true).
Proof.
  intros Hi. apply is_null_lookup in Hi. split.
  - intros Hpq. apply checkWin_ext. intros j. by apply holds_place_other.
  - unfold checkWin. rewrite !existsb_exists.
    intros (combo & Hin & Hc). exists combo. split; [done|].
    rewrite forallb_forall in *. intros j Hj.
    apply holds_place_mono; [done|]. by apply Hc.
Qed.

Lemma checkWin_place_witness :
  (X <> O -> checkWin (<[2%nat := Some X]> boardMidGame) O
             = checkWin boardMidGame O) /\
  (checkWin boardMidGame X = true ->
   checkWin (<[2%nat := Some X]> boardMidGame) X = true).
Proof.
  apply (checkWin_place boardMidGame 2 X O). reflexivity.
Defined.

(** ** The legal moves *)

Lemma filter_imap_null_indices (b : Board) :
  forall k,
    List.filter (fun i => negb (Z.eqb i (-1)))
      (imap (fun i v => if cell_is_null v then Z.of_nat (k + i) else -1) b)
    = map Z.of_nat (null_indices k b).
Proof.
  induction b as [|c b IH]; intros k; [done|].
  cbn [imap null_indices].
  rewrite (imap_ext _ (fun i v => if cell_is_null v
                                  then Z.of_nat (S k + i) else -1) b).
  2:{ intros i x _. cbn. destruct (cell_is_null x); [|done]. f_equal. lia. }
  cbn [List.filter]. rewrite Nat.add_0_r.
  destruct (cell_is_null c); cbn [negb].
  - destruct (Z.eqb_spec (Z.of_nat k) (-1)) as [E|_]; [lia|].
    cbn [negb map]. f_equal. apply IH.
  - cbn [Z.eqb negb]. apply IH.
Qed.

Lemma available_null_indices (b : Board) :
  available b = map Z.of_nat (null_indices 0 b).
Proof. apply (filter_imap_null_indices b 0). Qed.

Lemma null_indices_In (b : Board) :
  forall k j, In j (null_indices k b) <->
              (k <= j)%nat /\ is_null b (j - k) = true.
Proof.
  induction b as [|c b IH]; intros k j; cbn [null_indices].
  - split; [done|]. intros [_ H]. unfold is_null in H.
    by rewrite lookup_nil in H.
  - assert (Htail : In j (null_indices (S k) b) <->
                    (k < j)%nat /\ is_null (c :: b) (j - k) = true).
    { rewrite IH. split; intros [Hle H]; (split; [lia|]).
      - replace (j - k)%nat with (S (j - S k)) by lia. exact H.
      - replace (j - k)%nat with (S (j - S k)) in H by lia. exact H. }
    destruct c as [p|]; cbn [cell_is_null].
    + rewrite Htail. split; intros [Hle H].
      * split; [lia|done].
      * split; [|done]. destruct (decide (j = k)) as [->|]; [|lia].
        rewrite Nat.sub_diag in H. done.
    + cbn [In]. rewrite Htail. split.
      * intros [->|[Hlt H]]; [|split; [lia|done]].
        split; [lia|]. by rewrite Nat.sub_diag.
      * intros [Hle H]. destruct (decide (k = j)); [by left|right].
        split; [lia|done].
Qed.

Lemma null_indices_sorted (b : Board) :
  forall k, StronglySorted lt (null_indices k b).
Proof.
  induction b as [|c b IH]; intros k; cbn [null_indices]; [constructor|].
  destruct (cell_is_null c); [|apply IH].
  constructor; [apply IH|]. apply List.Forall_forall. intros j Hj.
  apply null_indices_In in Hj. lia.
Qed.

Lemma null_indices_length (b : Board) :
  forall k, length (null_indices k b) = count_null b.
Proof.
  induction b as [|c b IH]; intros k; [done|].
  rewrite count_null_cons. cbn [null_indices].
  destruct (cell_is_null c); cbn [length]; by rewrite IH.
Qed.

Lemma available_In (b : Board) (z : Z) :
  In z (available b) <-> exists i, z = Z.of_nat i /\ b !! i = Some None.
Proof.
  rewrite available_null_indices, in_map_iff. split.
  - intros (i & <- & Hi). exists i. split; [done|].
    apply null_indices_In in Hi as [_ Hi]. rewrite Nat.sub_0_r in Hi.
    by apply is_null_lookup.
  - intros (i & -> & Hi). exists i. split; [done|].
    apply null_indices_In. rewrite Nat.sub_0_r.
    split; [lia|by apply is_null_lookup].
Qed.

Lemma available_length (b : Board) : length (available b) = count_null b.
Proof. by rewrite available_null_indices, length_map, null_indices_length. Qed.

(** X3.  The list [available] of [getRandomMove] holds exactly the
    indices of the empty cells, in strictly ascending order, each once:
    its length is the number of empty cells. *)
Theorem available_spec (b : Board) :
  (forall z, In z (available b) <->
             exists i, z = Z.of_nat i /\ b !! i = Some None) /\
  StronglySorted Z.lt (available b) /\
  length (available b) = count_null b.
Proof.
  split; [apply available_In|]. split; [|apply available_length].
  rewrite available_null_indices.
  pose proof (null_indices_sorted b 0) as Hs.
  induction Hs as [|j l Hs IH Hall]; cbn [map]; constructor; [done|].
  apply List.Forall_forall. intros z Hz.
  apply in_map_iff in Hz as (i & <- & Hi).
  rewrite List.Forall_forall in Hall. specialize (Hall i Hi). lia.
Qed.

(** ** The random policy *)

Lemma all_null_lookup (b : Board) (i : nat) :
  all_null b = true -> (i < length b)%nat -> b !! i = Some None.
Proof.
  revert i. induction b as [|c b IH]; intros i H Hlt; cbn in *; [lia|].
  apply andb_true_iff in H as [Hc Hb]. destruct c; [done|].
  destruct i as [|i]; [done|]. apply IH; [done|lia].
Qed.

(** ** Results of the two policies *)

Lemma getRandomMove_result (b : Board) (r : Q) (m : Z) :
  getRandomMove b r = Some m ->
  (m = -1 /\ forall i, b !! i <> Some None) \/
  (exists i, m = Z.of_nat i /\ b !! i = Some None).
Proof.
  unfold getRandomMove. pose proof (available_length b) as Hlen.
  destruct (Nat.eqb_spec (length (available b)) 0) as [E|_].
  - intros [= <-]. left. split; [done|].
    apply none_null_lookup, none_null_count. lia.
  - destruct (Z.ltb _ 0); [done|]. intros Hk. right.
    apply available_In. apply list_elem_of_In. eapply list_elem_of_lookup_2. exact Hk.
Qed.

Lemma getBestMove_result (b : Board) (aiPlayer : Player) :
  length b = 9%nat ->
  exists m,
    getBestMove (search_fuel b) b aiPlayer = Some (m, b) /\
    ((m = -1 /\ forall i, b !! i <> Some None) \/
     (exists i, m = Z.of_nat i /\ b !! i = Some None)).
Proof.
  intros Hlen. unfold getBestMove.
  destruct (all_null b) eqn:Hall.
  - exists 4. split; [done|]. right. exists 4%nat. split; [done|].
    apply all_null_lookup; [done|lia].
  - assert (Hfuel : (count_null b <= search_fuel b)%nat)
      by (unfold search_fuel; lia).
    rewrite rootSearch_scan by done.
    set (sc := rootScore (search_fuel b) b aiPlayer).
    destruct (scan_seq sc b 9 0 NegInf (-1) _ eq_refl) as (_ & Hbound & Hm).
    fold cells in Hm, Hbound.
    destruct Hm as [Hr | (m & Hrange & Hnull & Hr & _)]; rewrite Hr in *;
      cbn [fst snd] in *.
    + exists (-1). split; [done|]. left. split; [done|]. intros i Hi.
      apply is_null_lookup in Hi.
      assert (Hsc : scanned b) by (apply scanned_length; lia).
      destruct (rootScore_finite (search_fuel b) b aiPlayer i Hsc Hi Hfuel)
        as [z Hz].
      specialize (Hbound i). fold sc in Hz. rewrite Hz in Hbound.
      specialize (Hsc i Hi).
      assert (score_le (Fin z) NegInf) by (apply Hbound; [lia|done]). done.
    + exists (Z.of_nat m). split; [done|]. right. exists m.
      split; [done|]. by apply is_null_lookup.
Qed.

(** The index [makeAiMove] selects on a nine-cell board, whatever the
    difficulty and the draws: -1 on a full board, an empty cell
    otherwise; and the board is as before. *)
Lemma aiMoveIndex_result (st : GameState) (coin r : Q) (m : Z) (b' : Board) :
  length (board st) = 9%nat ->
  aiMoveIndex st coin r = Some (m, b') ->
  b' = board st /\
  ((m = -1 /\ forall i, board st !! i <> Some None) \/
   (exists i, m = Z.of_nat i /\ board st !! i = Some None)).
Proof.
  intros Hlen. unfold aiMoveIndex.
  destruct (getBestMove_result (board st) O Hlen) as (ms & -> & Hms).
  assert (Hsmart : Some (ms, board st) = Some (m, b') ->
            b' = board st /\
            ((m = -1 /\ forall i, board st !! i <> Some None) \/
             (exists i, m = Z.of_nat i /\ board st !! i = Some None))).
  { intros [= <- <-]. done. }
  assert (Hrandom : match getRandomMove (board st) r with
                    | Some m => Some (m, board st)
                    | None => None
                    end = Some (m, b') ->
            b' = board st /\
            ((m = -1 /\ forall i, board st !! i <> Some None) \/
             (exists i, m = Z.of_nat i /\ board st !! i = Some None))).
  { destruct (getRandomMove (board st) r) as [mr|] eqn:E; [|done].
    intros [= <- <-]. split; [done|]. by apply getRandomMove_result in E. }
  destruct (getDifficulty st); [done| |done].
  by destruct (negb _).
Qed.

(** ** The random policy in doubles *)

Lemma count_null_le_length (b : Board) : (count_null b <= length b)%nat.
Proof.
  induction b as [|c b IH]; [done|]. rewrite count_null_cons. cbn [length].
  destruct (cell_is_null c); lia.
Qed.

(** [getRandomMove] is the same body with the exact product. *)
Lemma getRandomMove_At (b : Board) (r : Q) :
  getRandomMove b r = getRandomMoveAt (random_index r) b.
Proof. reflexivity. Qed.

(** The draw 0.6 and five empty cells: the product rounds to 3. *)
Example double_index_rounds :
  double_index (mkDraw64 5404319552844595 53) 5 = 3 /\
  random_index (5404319552844595 # 9007199254740992) 5 = 2.
Proof. split; reflexivity. Qed.

Lemma round53_nonneg (M : Z) : 0 <= M -> 0 <= round53 M.
Proof.
  intros HM. unfold round53.
  destruct (Z.leb_spec (Z.log2 M + 1 - 53) 0) as [Hs|Hs]; [done|].
  set (s := Z.log2 M + 1 - 53) in *.
  assert (HT : 0 < 2 ^ s) by (apply Z.pow_pos_nonneg; lia).
  assert (Hq : 0 <= M / 2 ^ s) by (by apply Z.div_pos).
  destruct (_ || _); nia.
Qed.

(** The rounded product of a draw and a length stays below the length. *)
Lemma round53_below (m k n : Z) :
  0 <= m < 2 ^ 53 -> 0 <= k -> m < 2 ^ k -> 0 < n ->
  round53 (m * n) < n * 2 ^ k.
Proof.
  intros [Hm0 Hm53] Hk HmD Hn.
  set (D := 2 ^ k) in *. set (P := 2 ^ 53) in *.
  assert (HD : 0 < D) by (apply Z.pow_pos_nonneg; lia).
  assert (HM : m * n < n * D) by nia.
  unfold round53. set (M := m * n) in *.
  destruct (Z.leb_spec (Z.log2 M + 1 - 53) 0) as [Hs|Hs]; [done|].
  set (s := Z.log2 M + 1 - 53) in *.
  assert (HMpos : 0 < M).
  { destruct (decide (0 < M)) as [|Hle]; [done|].
    assert (M = 0) as HM0 by nia. subst s. rewrite HM0 in Hs. cbn in Hs. lia. }
  set (T := 2 ^ s) in *.
  assert (HT : 0 < T) by (apply Z.pow_pos_nonneg; lia).
  pose proof (Z.div_mod M T ltac:(lia)) as Hdm.
  pose proof (Z.mod_pos_bound M T HT) as Hrem.
  set (q := M / T) in *. set (rem := M mod T) in *.
  assert (Hhalf : 2 * 2 ^ (s - 1) = T).
  { unfold T. replace s with (1 + (s - 1)) at 2 by lia.
    rewrite Z.pow_add_r by lia. done. }
  set (half := 2 ^ (s - 1)) in *.
  assert (Hlow : T * 2 ^ 52 <= M).
  { pose proof (Z.log2_spec M HMpos) as [Hlog _].
    replace (Z.log2 M) with (s + 52) in Hlog by (unfold s; lia).
    rewrite Z.pow_add_r in Hlog by lia. done. }
  assert (HP : P = 2 * 2 ^ 52) by reflexivity.
  destruct (Z.ltb half rem || (Z.eqb rem half && Z.odd q)) eqn:Hup; [|nia].
  assert (Hge : half <= rem).
  { apply orb_true_iff in Hup as [H|H].
    - apply Z.ltb_lt in H. lia.
    - apply andb_true_iff in H as [H _]. apply Z.eqb_eq in H. lia. }
  destruct (decide ((q + 1) * T < n * D)) as [|Hnot]; [done|]. exfalso.
  (* the draw is at least one part in 2^53 below 1 *)
  assert (Hgap : D <= P * (D - m)).
  { destruct (decide (k <= 53)) as [Hk53|Hk53].
    - assert (D <= P) by (apply Z.pow_le_mono_r; lia). nia.
    - assert (2 * P <= D).
      { replace (2 * P) with (2 ^ 54) by reflexivity.
        apply Z.pow_le_mono_r; lia. }
      nia. }
  assert (H1 : 2 * (n * (D - m)) <= T) by nia.
  assert (H2 : 2 * (n * D) <= P * T) by nia.
  nia.
Qed.

Lemma double_index_range (d : Draw64) (n : nat) :
  is_draw d -> (0 < n)%nat -> 0 <= double_index d n < Z.of_nat n.
Proof.
  intros (Hm & Hk & HmD) Hn. unfold double_index.
  assert (HD : 0 < 2 ^ scale d) by (apply Z.pow_pos_nonneg; lia).
  split.
  - apply Z.div_pos; [|done]. apply round53_nonneg. nia.
  - apply Z.div_lt_upper_bound; [done|].
    rewrite (Z.mul_comm (2 ^ scale d)). apply round53_below; lia.
Qed.

(** What the body of [getRandomMove] returns for an index inside the
    list: an empty cell. *)
Lemma getRandomMoveAt_legal (index : nat -> Z) (b : Board) :
  (exists i, b !! i = Some None) ->
  0 <= index (length (available b)) < Z.of_nat (length (available b)) ->
  exists i, getRandomMoveAt index b = Some (Z.of_nat i) /\ b !! i = Some None.
Proof.
  intros [i0 Hi0] [Hlo Hhi]. unfold getRandomMoveAt.
  destruct (Nat.eqb_spec (length (available b)) 0) as [E|_]; [lia|].
  destruct (Z.ltb_spec (index (length (available b))) 0) as [E|_]; [lia|].
  destruct (lookup_lt_is_Some_2 (available b)
              (Z.to_nat (index (length (available b))))) as [z Hz]; [lia|].
  assert (Hz' : In z (available b)).
  { apply list_elem_of_In. eapply list_elem_of_lookup_2. exact Hz. }
  apply available_In in Hz' as (i & -> & Hi). exists i. by rewrite Hz.
Qed.

(** X4.  In the arithmetic of doubles: for every double [d] of [0, 1),
    [getRandomMove] on a board with an empty cell returns the index of an
    empty cell - never -1, never an occupied cell, never [undefined]:
    the rounded product [d * length] stays below the length. *)
Theorem getRandomMove64_legal (b : Board) (d : Draw64) :
  is_draw d -> (exists i, b !! i = Some None) ->
  exists i, getRandomMove64 b d = Some (Z.of_nat i) /\ b !! i = Some None.
Proof.
  intros Hd Hex. apply getRandomMoveAt_legal; [done|].
  apply double_index_range; [done|].
  destruct Hex as [i Hi]. apply is_null_lookup in Hi.
  rewrite available_length. pose proof (count_null_place b i X Hi). lia.
Qed.

Lemma getRandomMove64_legal_witness :
  exists i,
    getRandomMove64 boardMidGame (mkDraw64 5404319552844595 53)
    = Some (Z.of_nat i) /\
    boardMidGame !! i = Some None.
Proof.
  apply (getRandomMove64_legal boardMidGame (mkDraw64 5404319552844595 53)).
  - repeat split; (discriminate || reflexivity).
  - exists 2%nat. reflexivity.
Defined.

(** X5.  Every empty cell of a nine-cell board can be drawn: for each of
    them there is a double of [0, 1) (a multiple of 1/16) for which
    [getRandomMove], in the arithmetic of doubles, returns its index. *)
Theorem getRandomMove64_reaches (b : Board) (i : nat) :
  length b = 9%nat -> b !! i = Some None ->
  exists d, is_draw d /\ getRandomMove64 b d = Some (Z.of_nat i).
Proof.
  intros Hlen Hi.
  assert (Hav : In (Z.of_nat i) (available b)) by (apply available_In; eauto).
  apply list_elem_of_In, list_elem_of_lookup_1 in Hav as [k Hk].
  pose proof (lookup_lt_Some _ _ _ Hk) as Hlt.
  pose proof (available_length b) as Hn.
  pose proof (count_null_le_length b) as Hle.
  set (n := length (available b)) in *.
  set (m := (16 * Z.of_nat k + Z.of_nat n - 1) / Z.of_nat n).
  assert (Hnpos : 0 < Z.of_nat n) by lia.
  pose proof (Z.div_mod (16 * Z.of_nat k + Z.of_nat n - 1) (Z.of_nat n)
                ltac:(lia)) as Hdm.
  pose proof (Z.mod_pos_bound (16 * Z.of_nat k + Z.of_nat n - 1) (Z.of_nat n)
                Hnpos) as Hmod.
  fold m in Hdm.
  assert (Hmn : 16 * Z.of_nat k <= m * Z.of_nat n < 16 * Z.of_nat k + Z.of_nat n)
    by lia.
  assert (Hm : 0 <= m < 16) by nia.
  exists (mkDraw64 m 4). split.
  - unfold is_draw. cbn [mant scale].
    change (2 ^ 4) with 16. change (2 ^ 53) with 9007199254740992. lia.
  - unfold getRandomMove64, getRandomMoveAt. fold n.
    destruct (Nat.eqb_spec n 0) as [E|_]; [lia|].
    assert (Hidx : double_index (mkDraw64 m 4) n = Z.of_nat k).
    { unfold double_index, round53. cbn [mant scale].
      assert (HM : m * Z.of_nat n < 2 ^ 53).
      { change (2 ^ 53) with 9007199254740992. nia. }
      destruct (Z.leb_spec (Z.log2 (m * Z.of_nat n) + 1 - 53) 0) as [_|Hs].
      - change (2 ^ 4) with 16. symmetry.
        apply (Z.div_unique _ 16 _ (m * Z.of_nat n - 16 * Z.of_nat k)); lia.
      - exfalso.
        destruct (decide (0 < m * Z.of_nat n)) as [Hpos|Hz].
        + apply Z.log2_lt_pow2 in HM; [lia|done].
        + assert (m * Z.of_nat n = 0) as E by nia.
          rewrite E in Hs. cbn in Hs. lia. }
    rewrite Hidx.
    destruct (Z.ltb_spec (Z.of_nat k) 0) as [E|_]; [lia|].
    by rewrite Nat2Z.id.
Qed.

Lemma getRandomMove64_reaches_witness :
  exists d, is_draw d /\ getRandomMove64 boardMidGame d = Some (Z.of_nat 7).
Proof.
  apply (getRandomMove64_reaches boardMidGame 7); reflexivity.
Defined.

(** The draws of the session are rationals and their product with the
    length is exact; the code's product is a double.  Nothing is lost:
    whatever index the code computes from a double draw, the exact product
    computes from some rational draw of [0, 1). *)
Lemma getRandomMove64_exact (b : Board) (d : Draw64) :
  is_draw d ->
  exists r : Q, (0 <= r)%Q /\ (r < 1)%Q /\
                getRandomMove64 b d = getRandomMove b r.
Proof.
  intros Hd. unfold getRandomMove64, getRandomMoveAt, getRandomMove.
  set (n := length (available b)).
  destruct (Nat.eqb_spec n 0) as [E|Hn].
  { exists 0%Q. split; [|split]; done. }
  assert (Hpos : (0 < n)%nat) by lia.
  pose proof (double_index_range d n Hd Hpos) as Hk.
  set (k := double_index d n) in *.
  assert (HnZ : Z.pos (Pos.of_nat n) = Z.of_nat n).
  { rewrite <- positive_nat_Z, Nat2Pos.id by lia. done. }
  exists (k # Pos.of_nat n).
  assert (Hidx : random_index (k # Pos.of_nat n) n = k).
  { unfold random_index.
    rewrite (Qfloor_comp _ (inject_Z k)); [apply Qfloor_Z|].
    unfold Qeq, Qmult, inject_Z. cbn [Qnum Qden]. rewrite Pos2Z.inj_mul, HnZ.
    lia. }
  split; [|split].
  - unfold Qle. cbn [Qnum Qden]. lia.
  - unfold Qlt. cbn [Qnum Qden]. rewrite HnZ. lia.
  - by rewrite Hidx.
Qed.

(** ** The move of the search is legal *)

(** X6.  On a nine-cell board, for either mark, [getBestMove] returns
    the index of an empty cell whenever there is one, and -1 exactly when
    there is none; the board is left as it was. *)
Theorem getBestMove_legal (b : Board) (aiPlayer : Player) :
  length b = 9%nat ->
  exists m,
    getBestMove (search_fuel b) b aiPlayer = Some (m, b) /\
    ((m = -1 /\ forall i, b !! i <> Some None) \/
     (exists i, m = Z.of_nat i /\ b !! i = Some None)).
Proof. apply getBestMove_result. Qed.

Lemma getBestMove_legal_witness :
  exists m,
    getBestMove (search_fuel boardCorners) boardCorners X
    = Some (m, boardCorners) /\
    ((m = -1 /\ forall i, boardCorners !! i <> Some None) \/
     (exists i, m = Z.of_nat i /\ boardCorners !! i = Some None)).
Proof. apply (getBestMove_legal boardCorners X). reflexivity. Defined.

(** ** The range of the scores *)

Section SearchLoopInvariant.

Variable P : Score -> Prop.
Variable rec : Board -> option (Score * Board).
Variable mark : Player.
Variable pick : Score -> Score -> Score.
Variable init : Score.
Variable b : Board.

Hypothesis rec_frame : forall b s b', rec b = Some (s, b') -> b' = b.
Hypothesis pick_keeps :
  forall s acc, P s -> acc = init \/ P acc -> P (pick s acc).
Hypothesis rec_gives :
  forall i s b', is_null b i = true ->
                 rec (<[i := Some mark]> b) = Some (s, b') -> P s.

(** A loop that starts from [init] and meets an empty cell ends with a
    score that satisfies [P]. *)
Lemma search_loop_invariant (idxs : list nat) :
  forall acc acc' b',
    for_each (search_cell rec mark pick) idxs (acc, b) = Some (acc', b') ->
    P acc \/ (acc = init /\ exists i, In i idxs /\ is_null b i = true) ->
    P acc'.
Proof using rec_frame pick_keeps rec_gives.
  induction idxs as [|i idxs IH]; intros acc acc' b' H Hacc; simpl in H.
  - destruct Hacc as [Hf | (_ & j & [] & _)]. congruence.
  - destruct (is_null b i) eqn:Hi.
    + destruct (rec (<[i := Some mark]> b)) as [[s b1]|] eqn:Hr; [|done].
      pose proof (rec_frame _ _ _ Hr) as ->.
      pose proof (rec_gives _ _ _ Hi Hr) as Hs.
      rewrite place_restore in H by done.
      apply IH in H; [done|]. left. apply pick_keeps; [done|].
      destruct Hacc as [Hf | [-> _]]; [by right|by left].
    + apply IH in H; [done|].
      destruct Hacc as [Hf | (-> & j & [->|Hj] & Hnull)];
        [by left|congruence|right; eauto].
Qed.

End SearchLoopInvariant.

Lemma minimax_within (fuel : nat) :
  forall b depth isMaximizing aiPlayer s b',
    scanned b -> 0 <= depth -> depth + Z.of_nat (count_null b) <= 10 ->
    minimax fuel b depth isMaximizing aiPlayer = Some (s, b') ->
    within depth s.
Proof.
  induction fuel as [|fuel IH]; intros b d m a s b' Hsc Hd Hdn H; [done|].
  rewrite minimax_S in H. unfold SCORES_O, SCORES_X, SCORES_TIE in H.
  destruct (checkWin b O); [inversion H; eexists; split; [done|lia]|].
  destruct (checkWin b X); [inversion H; eexists; split; [done|lia]|].
  destruct (none_null b) eqn:Hfull; [inversion H; eexists; split; [done|lia]|].
  destruct (none_null_false b Hfull) as [i Hi].
  assert (Hin : In i cells) by (apply in_seq; specialize (Hsc i Hi); lia).
  assert (Hframe : forall d' m' b0 s0 b0',
             minimax fuel b0 d' m' a = Some (s0, b0') -> b0' = b0).
  { intros; eapply minimax_frame; eauto. }
  assert (Hchild : forall mark m' j s1 b1, is_null b j = true ->
            minimax fuel (<[j := Some mark]> b) (d + 1) m' a = Some (s1, b1) ->
            within d s1).
  { intros mark m' j s1 b1 Hj Hr.
    pose proof (count_null_place b j mark Hj) as Hcount.
    assert (Hd1 : 0 <= d + 1) by lia.
    assert (Hdn1 : d + 1 + Z.of_nat (count_null (<[j := Some mark]> b)) <= 10)
      by lia.
    destruct (IH _ _ _ _ _ _ (scanned_place b j mark Hsc) Hd1 Hdn1 Hr)
      as (z & -> & Hz).
    exists z. split; [done|lia]. }
  destruct m.
  - eapply (search_loop_invariant (within d) _ O Math_max NegInf b
              (Hframe _ _)); [| |exact H|right; eauto].
    + intros s1 acc (z & -> & Hz) [->|(z' & -> & Hz')]; [by exists z|].
      unfold Math_max. destruct (score_gt _ _); eexists; eauto.
    + intros j s1 b1. apply Hchild.
  - eapply (search_loop_invariant (within d) _ X Math_min PosInf b
              (Hframe _ _)); [| |exact H|right; eauto].
    + intros s1 acc (z & -> & Hz) [->|(z' & -> & Hz')]; [by exists z|].
      unfold Math_min. destruct (score_gt _ _); eexists; eauto.
    + intros j s1 b1. apply Hchild.
Qed.

(** X7.  On a nine-cell board, a search started at depth 0 returns an
    integer score between -10 and 10, and one ply deeper the range
    shrinks by one on each side: at depth [d], with [d] plus the number
    of empty cells at most 10, the score lies between [-10 + d] and
    [10 - d].  The infinities the loops start from never come out. *)
Theorem minimax_score_range (b : Board) (depth : Z) (isMaximizing : bool)
    (aiPlayer : Player) :
  length b = 9%nat -> 0 <= depth ->
  depth + Z.of_nat (count_null b) <= 10 ->
  exists z,
    minimax (search_fuel b) b depth isMaximizing aiPlayer = Some (Fin z, b) /\
    -10 + depth <= z <= 10 - depth.
Proof.
  intros Hlen Hd Hdn.
  destruct (minimax_total (search_fuel b) b depth isMaximizing aiPlayer)
    as [s Hs]; [unfold search_fuel; lia|].
  assert (Hsc : scanned b) by (apply scanned_length; lia).
  destruct (minimax_within _ _ _ _ _ _ _ Hsc Hd Hdn Hs) as (z & -> & Hz).
  eauto.
Qed.

Lemma minimax_score_range_witness :
  exists z,
    minimax (search_fuel boardCorners) boardCorners 3 true O
    = Some (Fin z, boardCorners) /\
    -10 + 3 <= z <= 10 - 3.
Proof.
  apply (minimax_score_range boardCorners 3 true O).
  - reflexivity.
  - lia.
  - vm_compute. discriminate.
Defined.

(** ** The value of an inner node *)

Section SearchLoopFold.

Variable rec : Board -> option (Score * Board).
Variable mark : Player.
Variable pick : Score -> Score -> Score.
Variable b : Board.
Variable sc : nat -> Score.
Variable le : Score -> Score -> Prop.

Hypothesis rec_sc :
  forall i, is_null b i = true ->
            rec (<[i := Some mark]> b) = Some (sc i, <[i := Some mark]> b).
Hypothesis le_refl : forall s, le s s.
Hypothesis le_trans : forall s t u, le s t -> le t u -> le s u.
Hypothesis pick_cases :
  forall s acc, (pick s acc = s /\ le acc s) \/ (pick s acc = acc /\ le s acc).

(** The loop ends with a score that is above (for [le]) the start and
    the score of every empty cell it visited, and that is the start or
    the score of one of those cells. *)
Lemma search_loop_best (idxs : list nat) :
  forall acc, exists r,
    for_each (search_cell rec mark pick) idxs (acc, b) = Some (r, b) /\
    le acc r /\
    (forall j, In j idxs -> is_null b j = true -> le (sc j) r) /\
    (r = acc \/ exists i, In i idxs /\ is_null b i = true /\ r = sc i).
Proof using rec_sc le_refl le_trans pick_cases.
  induction idxs as [|i idxs IH]; intros acc.
  - exists acc. cbn. repeat split; eauto. intros j [].
  - cbn [for_each search_cell].
    destruct (is_null b i) eqn:Hi.
    + rewrite (rec_sc i Hi), place_restore by done.
      destruct (IH (pick (sc i) acc)) as (r & Hr & Hle & Hall & Hex).
      exists r. split; [done|].
      destruct (pick_cases (sc i) acc) as [[Hp Hacc]|[Hp Hacc]];
        rewrite Hp in *.
      * split; [eauto|]. split.
        -- intros j [<-|Hj] Hnull; eauto.
        -- right. destruct Hex as [->|(k & Hk & Hknull & ->)].
           ++ exists i. split; [by left|done].
           ++ exists k. split; [by right|done].
      * split; [done|]. split.
        -- intros j [<-|Hj] Hnull; eauto.
        -- destruct Hex as [->|(k & Hk & Hknull & ->)]; [by left|].
           right. exists k. split; [by right|done].
    + destruct (IH acc) as (r & Hr & Hle & Hall & Hex).
      exists r. split; [done|]. split; [done|]. split.
      * intros j [<-|Hj] Hnull; [congruence|eauto].
      * destruct Hex as [->|(k & Hk & Hknull & ->)]; [by left|].
        right. exists k. split; [by right|done].
Qed.

End SearchLoopFold.

Lemma Math_max_cases (s acc : Score) :
  (Math_max s acc = s /\ score_le acc s) \/
  (Math_max s acc = acc /\ score_le s acc).
Proof.
  unfold Math_max. destruct (score_gt s acc) eqn:E.
  - left. split; [done|]. by apply score_gt_le.
  - by right.
Qed.

Lemma Math_min_cases (s acc : Score) :
  (Math_min s acc = s /\ score_le s acc) \/
  (Math_min s acc = acc /\ score_le acc s).
Proof.
  unfold Math_min. destruct (score_gt s acc) eqn:E.
  - right. split; [done|]. by apply score_gt_le.
  - by left.
Qed.

(** The value of an inner node is the best of the values of the legal
    moves. *)
Lemma minimax_node (fuel : nat) (b : Board) (depth : Z)
    (isMaximizing : bool) (aiPlayer : Player) :
  length b = 9%nat ->
  checkWin b O = false -> checkWin b X = false ->
  (exists i, b !! i = Some None) ->
  (count_null b <= fuel)%nat ->
  exists (s : Score) (child : nat -> Score),
    minimax (S fuel) b depth isMaximizing aiPlayer = Some (s, b) /\
    (forall j, b !! j = Some None ->
       minimax fuel (<[j := Some (mover isMaximizing)]> b) (depth + 1)
               (negb isMaximizing) aiPlayer
       = Some (child j, <[j := Some (mover isMaximizing)]> b)) /\
    (exists i, b !! i = Some None /\ s = child i) /\
    (forall j, b !! j = Some None -> at_least isMaximizing s (child j)).
Proof.
  intros Hlen HO HX [i0 Hi0] Hfuel. apply is_null_lookup in Hi0.
  assert (Hsc : scanned b) by (apply scanned_length; lia).
  set (mark := mover isMaximizing).
  set (child := fun j =>
         match minimax fuel (<[j := Some mark]> b) (depth + 1)
                       (negb isMaximizing) aiPlayer with
         | Some (s, _) => s
         | None => NegInf
         end).
  assert (Hchild : forall j, is_null b j = true ->
            minimax fuel (<[j := Some mark]> b) (depth + 1)
                    (negb isMaximizing) aiPlayer
            = Some (child j, <[j := Some mark]> b)).
  { intros j Hj. unfold child.
    destruct (minimax_total fuel (<[j := Some mark]> b) (depth + 1)
                (negb isMaximizing) aiPlayer) as [s Hs]; [|by rewrite Hs].
    pose proof (count_null_place b j mark Hj). lia. }
  assert (Hfin : forall j, is_null b j = true -> finite (child j)).
  { intros j Hj. eapply minimax_finite; [|apply (Hchild j Hj)].
    by apply scanned_place. }
  assert (Hnotfull : none_null b = false).
  { apply not_true_is_false. intros Hfull.
    pose proof (proj1 (none_null_lookup b) Hfull i0) as Hno.
    apply is_null_lookup in Hi0. done. }
  assert (Hcells : forall j, is_null b j = true -> In j cells).
  { intros j Hj. apply in_seq. specialize (Hsc j Hj). lia. }
  rewrite minimax_S, HO, HX, Hnotfull.
  destruct isMaximizing; cbn [negb mover at_least] in *.
  - destruct (search_loop_best
                (fun board => minimax fuel board (depth + 1) false aiPlayer)
                O Math_max b child score_le Hchild
                score_le_refl score_le_trans Math_max_cases cells NegInf)
      as (r & Hr & _ & Hall & Hex).
    exists r, child. split; [done|]. split; [|split].
    + intros j Hj. apply Hchild. by apply is_null_lookup.
    + destruct Hex as [->|(k & _ & Hk & ->)].
      * destruct (Hfin i0 Hi0) as [z Hz].
        specialize (Hall i0 (Hcells i0 Hi0) Hi0). rewrite Hz in Hall. done.
      * exists k. split; [by apply is_null_lookup|done].
    + intros j Hj. apply is_null_lookup in Hj. by apply Hall; [apply Hcells|].
  - destruct (search_loop_best
                (fun board => minimax fuel board (depth + 1) true aiPlayer)
                X Math_min b child
                (fun s t => score_le t s) Hchild
                score_le_refl
                (fun s t u H1 H2 => score_le_trans u t s H2 H1)
                Math_min_cases cells PosInf)
      as (r & Hr & _ & Hall & Hex).
    exists r, child. split; [done|]. split; [|split].
    + intros j Hj. apply Hchild. by apply is_null_lookup.
    + destruct Hex as [->|(k & _ & Hk & ->)].
      * destruct (Hfin i0 Hi0) as [z Hz].
        specialize (Hall i0 (Hcells i0 Hi0) Hi0). cbv beta in Hall.
        rewrite Hz in Hall. done.
      * exists k. split; [by apply is_null_lookup|done].
    + intros j Hj. apply is_null_lookup in Hj.
      by apply (Hall j); [apply Hcells|].
Qed.

(** X8.  On a nine-cell board where nobody holds a line and a cell is
    empty, the value [minimax] returns is the value of one of the legal
    moves - the board with the mover's mark (O when maximizing, X when
    minimizing) on an empty cell, evaluated one ply deeper in the other
    role - and no legal move has a better one: the maximum when
    maximizing, the minimum when minimizing. *)
Theorem minimax_node_value (fuel : nat) (b : Board) (depth : Z)
    (isMaximizing : bool) (aiPlayer : Player) :
  length b = 9%nat ->
  checkWin b O = false -> checkWin b X = false ->
  (exists i, b !! i = Some None) ->
  (count_null b <= fuel)%nat ->
  exists (s : Score) (child : nat -> Score),
    minimax (S fuel) b depth isMaximizing aiPlayer = Some (s, b) /\
    (forall j, b !! j = Some None ->
       minimax fuel (<[j := Some (mover isMaximizing)]> b) (depth + 1)
               (negb isMaximizing) aiPlayer
       = Some (child j, <[j := Some (mover isMaximizing)]> b)) /\
    (exists i, b !! i = Some None /\ s = child i) /\
    (forall j, b !! j = Some None -> at_least isMaximizing s (child j)).
Proof. apply minimax_node. Qed.

Lemma minimax_node_value_witness :
  exists (s : Score) (child : nat -> Score),
    minimax 7 boardCorners 1 false O = Some (s, boardCorners) /\
    (forall j, boardCorners !! j = Some None ->
       minimax 6 (<[j := Some (mover false)]> boardCorners) (1 + 1)
               (negb false) O
       = Some (child j, <[j := Some (mover false)]> boardCorners)) /\
    (exists i, boardCorners !! i = Some None /\ s = child i) /\
    (forall j, boardCorners !! j = Some None -> at_least false s (child j)).
Proof.
  apply (minimax_node_value 6 boardCorners 1 false O).
  - reflexivity.
  - reflexivity.
  - reflexivity.
  - exists 1%nat. reflexivity.
  - vm_compute. lia.
Defined.


(** ** The invariant of a session *)

Lemma count_mark_place (b : Board) (p q : Player) :
  forall i, is_null b i = true ->
    count_mark q (<[i := Some p]> b)
    = ((if Player_eqb p q then 1 else 0) + count_mark q b)%nat.
Proof.
  unfold count_mark. induction b as [|c b IH]; intros i Hi; [done|].
  destruct i as [|i].
  - destruct c; [done|]. cbn. by destruct (Player_eqb p q).
  - specialize (IH i Hi).
    change (<[S i := Some p]> (c :: b)) with (c :: <[i := Some p]> b).
    cbn [List.filter]. destruct (cell_holds q c); cbn [length]; lia.
Qed.

Lemma checkWin_place_other (b : Board) (i : nat) (p q : Player) :
  is_null b i = true -> p <> q ->
  checkWin (<[i := Some p]> b) q = checkWin b q.
Proof.
  intros Hi Hpq. apply checkWin_ext. intros j. by apply holds_place_other.
Qed.

Lemma newGame_ok (m : GameMode) (s0 : Stats) : session_ok m s0 (newGame m s0).
Proof. repeat split. Qed.

(** A move of the player to move, on an empty cell of a running game. *)
Lemma makeMove_ok (s0 : Stats) (i : nat) (st : GameState) :
  board_ok s0 st -> isGameActive st = true ->
  is_null (board st) i = true ->
  board_ok s0 (makeMove i (currentPlayer st) st) /\
  mode (makeMove i (currentPlayer st) st) = mode st /\
  (isGameActive (makeMove i (currentPlayer st) st) = true ->
   currentPlayer (makeMove i (currentPlayer st) st)
   = match currentPlayer st with X => O | O => X end).
Proof.
  destruct st as [b p a m s]. cbn [board isGameActive currentPlayer mode].
  intros [Hlen Hok] -> Hi. cbn [board isGameActive currentPlayer stats] in *.
  destruct Hok as (HX & HO & Hnf & -> & Hcount).
  pose proof (count_mark_place b p X i Hi) as HcX.
  pose proof (count_mark_place b p O i Hi) as HcO.
  assert (Hlen1 : length (<[i := Some p]> b) = 9%nat)
    by (by rewrite length_insert).
  unfold makeMove, board_ok, recorded.
  destruct p; cbn [Player_eqb] in *.
  - assert (Hoth : checkWin (<[i := Some X]> b) O = false)
      by (by rewrite checkWin_place_other).
    cbn [board isGameActive currentPlayer mode stats].
    destruct (checkWin (<[i := Some X]> b) X) eqn:Hw;
      [|destruct (none_null (<[i := Some X]> b)) eqn:Hfull];
      cbn [endGame board isGameActive currentPlayer mode stats].
    + split; [split; [done|split]|done]; [by left|right; lia].
    + split; [split; [done|split]|done]; [by right; right|right; lia].
    + repeat split; try done. lia.
  - assert (Hoth : checkWin (<[i := Some O]> b) X = false)
      by (by rewrite checkWin_place_other).
    cbn [board isGameActive currentPlayer mode stats].
    destruct (checkWin (<[i := Some O]> b) O) eqn:Hw;
      [|destruct (none_null (<[i := Some O]> b)) eqn:Hfull];
      cbn [endGame board isGameActive currentPlayer mode stats].
    + split; [split; [done|split]|done]; [by right; left|left; lia].
    + split; [split; [done|split]|done]; [by right; right|left; lia].
    + repeat split; try done. lia.
Qed.

(** One click keeps the invariant. *)
Lemma handleCellClick_ok (m : GameMode) (s0 : Stats) (c : Click)
    (st st' : GameState) :
  session_ok m s0 st -> handleCellClick c st = Some st' ->
  session_ok m s0 st'.
Proof.
  intros Hses. pose proof Hses as (Hok & Hmode & Hturn).
  unfold handleCellClick.
  destruct (isGameActive st) eqn:Hact; cbn [negb orb]; [|by intros [= <-]].
  destruct (is_null (board st) (cell c)) eqn:Hnull; cbn [negb];
    [|by intros [= <-]].
  destruct (makeMove_ok s0 (cell c) st Hok Hact Hnull) as (Hok1 & Hmode1 & Hturn1).
  set (st1 := makeMove (cell c) (currentPlayer st) st) in *.
  destruct (isGameActive st1) eqn:Hact1; cbn [andb].
  2:{ intros [= <-]. split; [done|]. split; [congruence|].
      intros Hact'. congruence. }
  specialize (Hturn1 eq_refl).
  destruct (isAiTurn st1) eqn:Hai.
  2:{ intros [= <-]. split; [done|]. split; [congruence|].
      intros _ Hpvp. unfold isAiTurn in Hai. rewrite Hmode1, Hmode in Hai.
      destruct m, (currentPlayer st1); done. }
  assert (Hm : m <> pvp).
  { intros ->. unfold isAiTurn in Hai. by rewrite Hmode1, Hmode in Hai. }
  assert (HcurX : currentPlayer st = X) by (by apply Hturn).
  rewrite HcurX in Hturn1.
  assert (Hst1 : mkState (board st1) (currentPlayer st1) true (mode st1)
                        (stats st1) = st1)
    by (destruct st1; cbn in *; congruence).
  rewrite Hst1. unfold makeAiMove. rewrite Hact1. cbn [negb].
  destruct (aiMoveIndex st1 (coin c) (draw c)) as [[mv b']|] eqn:Hmv; [|done].
  destruct Hok1 as [Hlen1 Hrun1]. rewrite Hact1 in Hrun1.
  destruct (aiMoveIndex_result st1 _ _ _ _ Hlen1 Hmv)
    as (-> & [[-> Hfull]|(j & -> & Hj)]).
  - destruct Hrun1 as (_ & _ & Hnf & _).
    apply none_null_lookup in Hfull. congruence.
  - destruct (Z.eqb_spec (Z.of_nat j) (-1)) as [E|_]; [lia|]. cbn [negb].
    rewrite Nat2Z.id, Hst1.
    intros [= <-]. apply is_null_lookup in Hj.
    assert (Hok1 : board_ok s0 st1) by (split; [done|by rewrite Hact1]).
    rewrite <- Hturn1.
    destruct (makeMove_ok s0 j st1 Hok1 Hact1 Hj) as (Hok2 & Hmode2 & Hturn2).
    split; [done|]. split; [congruence|].
    intros Hact2 _. rewrite (Hturn2 Hact2), Hturn1. done.
Qed.

(** Every state of a session that started from [newGame m s0]. *)
Lemma play_ok (m : GameMode) (s0 : Stats) (clicks : list Click) :
  forall st st', session_ok m s0 st -> play clicks st = Some st' ->
                 session_ok m s0 st'.
Proof.
  induction clicks as [|c clicks IH]; intros st st' Hok; cbn [play].
  - by intros [= <-].
  - destruct (handleCellClick c st) as [st1|] eqn:Hc; [|done].
    apply IH. eapply handleCellClick_ok; eauto.
Qed.

(** X10.  In a session from a fresh game the board keeps its nine cells
    and the marks alternate: X has as many marks as O, or one more; while
    the game runs X is to move exactly when the counts are equal; and
    against the computer the game, while it runs, always waits for X. *)
Theorem session_turns (m : GameMode) (s0 : Stats) (clicks : list Click)
    (st : GameState) :
  play clicks (newGame m s0) = Some st ->
  length (board st) = 9%nat /\
  (count_mark X (board st) = count_mark O (board st) \/
   count_mark X (board st) = S (count_mark O (board st))) /\
  (isGameActive st = true ->
   (currentPlayer st = X <->
    count_mark X (board st) = count_mark O (board st)) /\
   (m <> pvp -> currentPlayer st = X)).
Proof.
  intros Hplay.
  destruct (play_ok m s0 clicks _ _ (newGame_ok m s0) Hplay)
    as ((Hlen & Hok) & _ & Hturn).
  split; [done|]. destruct (isGameActive st).
  - destruct Hok as (_ & _ & _ & _ & Hcount).
    destruct (currentPlayer st).
    + split; [by left|]. intros _. split; [|by apply Hturn]. done.
    + split; [by right|]. intros _. split; [|by apply Hturn].
      split; [done|]. intros; lia.
  - destruct Hok as [_ Hcount]. split; [done|]. done.
Qed.

Lemma session_turns_witness :
  length boardDrawn = 9%nat /\
  (count_mark X boardDrawn = count_mark O boardDrawn \/
   count_mark X boardDrawn = S (count_mark O boardDrawn)) /\
  (false = true ->
   (X = X <-> count_mark X boardDrawn = count_mark O boardDrawn) /\
   (pvch <> pvp -> X = X)).
Proof.
  apply (session_turns pvch zeroStats (map noDraws [0; 8; 7; 2; 3]%nat)
           (mkState boardDrawn X false pvch (mkStats 0 0 1))).
  vm_compute. reflexivity.
Defined.



(** ** The session never gets stuck *)





(** ** Marks stay *)

Lemma makeMove_board (i : nat) (p : Player) (st : GameState) :
  board (makeMove i p st) = <[i := Some p]> (board st).
Proof.
  unfold makeMove. cbn [board].
  destruct (checkWin _ p); [done|]. by destruct (none_null _).
Qed.

Lemma place_keeps (b : Board) (i j : nat) (p : Player) :
  b !! i = Some None -> b !! j <> Some None ->
  <[i := Some p]> b !! j = b !! j.
Proof.
  intros Hi Hj. destruct (decide (i = j)) as [->|Hne]; [done|].
  by rewrite list_lookup_insert_ne.
Qed.

Lemma handleCellClick_keeps (c : Click) (st st' : GameState) :
  length (board st) = 9%nat -> handleCellClick c st = Some st' ->
  length (board st') = 9%nat /\
  forall j, board st !! j <> Some None -> board st' !! j = board st !! j.
Proof.
  intros Hlen. unfold handleCellClick.
  destruct (isGameActive st); cbn [negb orb]; [|by intros [= <-]].
  destruct (is_null (board st) (cell c)) eqn:Hnull; cbn [negb];
    [|by intros [= <-]].
  apply is_null_lookup in Hnull.
  set (st1 := makeMove (cell c) (currentPlayer st) st).
  assert (Hb1 : board st1 = <[cell c := Some (currentPlayer st)]> (board st))
    by apply makeMove_board.
  assert (Hlen1 : length (board st1) = 9%nat)
    by (by rewrite Hb1, length_insert).
  assert (Hkeep1 : forall j, board st !! j <> Some None ->
                             board st1 !! j = board st !! j).
  { intros j Hj. rewrite Hb1. by apply place_keeps. }
  destruct (_ && _); [|by intros [= <-]].
  unfold makeAiMove. cbn [isGameActive negb].
  destruct (aiMoveIndex _ _ _) as [[mv b']|] eqn:Hmv; [|done].
  apply aiMoveIndex_result in Hmv as [-> Hmv]; [|done].
  cbn [board] in *.
  destruct (negb (mv =? -1)) eqn:Hneg; intros [= <-]; [|done].
  destruct Hmv as [[-> _]|(j0 & -> & Hj0)]; [done|].
  rewrite makeMove_board. cbn [board]. rewrite Nat2Z.id. split.
  - by rewrite length_insert.
  - intros j Hj. rewrite place_keeps; [by apply Hkeep1|done|].
    by rewrite Hkeep1.
Qed.

(** X13.  A placed mark stays: in a session on a nine-cell board, in any
    mode and with any draws, every cell that is not empty holds the same
    mark after any sequence of clicks, and the board keeps its nine
    cells.  Only empty cells are ever written. *)
Theorem play_keeps_marks (clicks : list Click) (st st' : GameState) :
  length (board st) = 9%nat -> play clicks st = Some st' ->
  length (board st') = 9%nat /\
  forall j, board st !! j <> Some None -> board st' !! j = board st !! j.
Proof.
  revert st. induction clicks as [|c clicks IH]; intros st Hlen; cbn [play].
  - by intros [= <-].
  - destruct (handleCellClick c st) as [st1|] eqn:Hc; [|done].
    destruct (handleCellClick_keeps c st st1 Hlen Hc) as [Hlen1 Hkeep1].
    intros Hplay. destruct (IH st1 Hlen1 Hplay) as [Hlen' Hkeep'].
    split; [done|]. intros j Hj. rewrite Hkeep'; [by apply Hkeep1|].
    by rewrite Hkeep1.
Qed.

Lemma play_keeps_marks_witness :
  length (<[2%nat := Some X]> boardMidGame) = 9%nat /\
  forall j, boardMidGame !! j <> Some None ->
            <[2%nat := Some X]> boardMidGame !! j = boardMidGame !! j.
Proof.
  apply (play_keeps_marks (map noDraws [2]%nat)
           (mkState boardMidGame X true pvp zeroStats)
           (mkState (<[2%nat := Some X]> boardMidGame) O true pvp zeroStats)).
  - reflexivity.
  - vm_compute. reflexivity.
Defined.

(** ** The event loop *)

(** A click followed at once by its timer: from a session without a
    scheduled reply, the click handler and then the callback (if one was
    scheduled) leave the state that [handleCellClick] computes. *)
Lemma click_then_timer (c : Click) (st : GameState) :
  timerFires (coin c) (draw c) (clickCell (cell c) (mkSession st 0))
  = (fun st' => mkSession st' 0) <$> handleCellClick c st.
Proof.
  unfold clickCell, handleCellClick. cbn [game timers].
  destruct (negb (isGameActive st) || negb (is_null (board st) (cell c)));
    [reflexivity|].
  destruct (_ && _); [|reflexivity].
  unfold timerFires. cbn [game timers board currentPlayer mode stats].
  by destruct (makeAiMove _ _ _).
Qed.

Lemma clickCell_blocked (j : nat) (s : Session) :
  isGameActive (game s) = false -> clickCell j s = s.
Proof. intros H. unfold clickCell. by rewrite H. Qed.

(** X15.  While a reply is scheduled, input is blocked: when a click
    schedules a reply of the opponent, every sequence of further clicks
    leaves the session exactly as it is. *)
Theorem clicks_blocked_while_thinking (i : nat) (s : Session)
    (more : list nat) :
  timers (clickCell i s) = S (timers s) ->
  fold_left (fun s j => clickCell j s) more (clickCell i s) = clickCell i s.
Proof.
  intros Hsched.
  assert (Hblocked : isGameActive (game (clickCell i s)) = false).
  { revert Hsched. unfold clickCell.
    destruct (negb (isGameActive (game s))
              || negb (is_null (board (game s)) i)); [lia|].
    destruct (_ && _); cbn [timers game isGameActive]; [done|lia]. }
  induction more as [|j more IH]; cbn [fold_left]; [done|].
  by rewrite clickCell_blocked.
Qed.

Lemma clicks_blocked_while_thinking_witness :
  fold_left (fun s j => clickCell j s) [1; 2; 3]%nat
            (clickCell 0 (mkSession (newGame pvch zeroStats) 0))
  = clickCell 0 (mkSession (newGame pvch zeroStats) 0).
Proof.
  apply (clicks_blocked_while_thinking 0
           (mkSession (newGame pvch zeroStats) 0) [1; 2; 3]%nat).
  reflexivity.
Defined.

(** X16.  A reset does not cancel a scheduled reply.  In the hard mode,
    when a new game is started while a reply is scheduled, the callback
    then plays O on the centre of the fresh board and leaves O to move;
    the next click, on any other cell, is placed as a mark of O, and no
    reply is scheduled for it. *)
Theorem reset_while_thinking (k : ResetKind) (s : Session) (coin r : Q)
    (i : nat) :
  mode (reset k (game s)) = pvch -> (0 < timers s)%nat ->
  (i < 9)%nat -> i <> 4%nat ->
  exists s1,
    timerFires coin r (pressReset k s) = Some s1 /\
    board (game s1) = <[4%nat := Some O]> emptyBoard /\
    currentPlayer (game s1) = O /\ isGameActive (game s1) = true /\
    board (game (clickCell i s1))
    = <[i := Some O]> (<[4%nat := Some O]> emptyBoard) /\
    currentPlayer (game (clickCell i s1)) = X /\
    timers (clickCell i s1) = timers s1.
Proof.
  intros Hmode Htimers Hi Hne.
  destruct s as [st [|n]]; cbn [timers game] in *; [lia|].
  assert (Hreset : exists s0, reset k st = mkState emptyBoard X true pvch s0).
  { destruct k; unfold reset, handleModeChange, clearStats, resetGame in *;
      cbn [mode board currentPlayer isGameActive stats] in *;
      rewrite Hmode; eexists; reflexivity. }
  destruct Hreset as [s0 Hreset].
  unfold pressReset, timerFires. cbn [game timers]. rewrite Hreset.
  eexists. split; [reflexivity|]. cbn [game].
  do 9 (destruct i as [|i]; [try done; repeat split|]). lia.
Qed.

Lemma reset_while_thinking_witness :
  exists s1,
    timerFires 0 0
      (pressReset Escape (clickCell 0 (mkSession (newGame pvch zeroStats) 0)))
    = Some s1 /\
    board (game s1) = <[4%nat := Some O]> emptyBoard /\
    currentPlayer (game s1) = O /\ isGameActive (game s1) = true /\
    board (game (clickCell 0 s1))
    = <[0%nat := Some O]> (<[4%nat := Some O]> emptyBoard) /\
    currentPlayer (game (clickCell 0 s1)) = X /\
    timers (clickCell 0 s1) = timers s1.
Proof.
  apply (reset_while_thinking Escape
           (clickCell 0 (mkSession (newGame pvch zeroStats) 0)) 0%Q 0%Q 0).
  - reflexivity.
  - vm_compute. lia.
  - lia.
  - discriminate.
Defined.

(** ** The event loop and the session *)

Lemma play_app (l1 l2 : list Click) (st : GameState) :
  play (l1 ++ l2) st
  = match play l1 st with
    | Some st' => play l2 st'
    | None => None
    end.
Proof.
  revert st. induction l1 as [|c l1 IH]; intros st; cbn [app play]; [done|].
  destruct (handleCellClick c st); [apply IH|done].
Qed.

(** The click handler schedules at most one reply, and blocks input when
    it does. *)
Lemma clickCell_timers (i : nat) (st : GameState) :
  (timers (clickCell i (mkSession st 0)) = 0%nat /\
   handleCellClick (mkClick i 0 0) st
   = Some (game (clickCell i (mkSession st 0)))) \/
  (timers (clickCell i (mkSession st 0)) = 1%nat /\
   isGameActive st = true /\ is_null (board st) i = true /\
   isGameActive (makeMove i (currentPlayer st) st) = true /\
   isAiTurn (makeMove i (currentPlayer st) st) = true /\
   board (game (clickCell i (mkSession st 0)))
   = board (makeMove i (currentPlayer st) st) /\
   stats (game (clickCell i (mkSession st 0)))
   = stats (makeMove i (currentPlayer st) st) /\
   isGameActive (game (clickCell i (mkSession st 0))) = false).
Proof.
  unfold clickCell, handleCellClick. cbn [game timers cell].
  destruct (isGameActive st); cbn [negb orb]; [|by left].
  destruct (is_null (board st) i); cbn [negb]; [|by left].
  destruct (isGameActive (makeMove i (currentPlayer st) st)); cbn [andb];
    [|by left].
  destruct (isAiTurn (makeMove i (currentPlayer st) st)); [|by left].
  right. done.
Qed.

Lemma step_simulated (st0 : GameState) (e : Event) (s s' : Session) :
  simulated st0 s -> step e s = Some s' -> simulated st0 s'.
Proof.
  intros [[Ht (clicks & Hplay)]|[Ht (clicks & st & i & Hplay & ->)]].
  - destruct s as [st n]. cbn [timers game] in *. subst n.
    destruct e as [j|c r]; cbn [step].
    + intros [= <-].
      destruct (clickCell_timers j st) as [[Ht Hc]|[Ht _]].
      * left. split; [done|]. exists (clicks ++ [mkClick j 0 0]).
        rewrite play_app, Hplay. cbn [play]. by rewrite Hc.
      * right. split; [done|]. by exists clicks, st, j.
    + unfold timerFires. cbn [timers]. intros [= <-]. left. eauto.
  - destruct e as [j|c r]; cbn [step].
    + intros [= <-].
      destruct (clickCell_timers i st) as [[Ht' _]|(_ & Hrest)]; [lia|].
      rewrite clickCell_blocked by apply Hrest.
      right. split; [done|]. by exists clicks, st, i.
    + pose proof (click_then_timer (mkClick i c r) st) as Hct.
      cbn [cell coin draw] in Hct. rewrite Hct.
      destruct (handleCellClick (mkClick i c r) st) as [st'|] eqn:Hc;
        [|done].
      intros [= <-]. left. split; [done|].
      exists (clicks ++ [mkClick i c r]).
      rewrite play_app, Hplay. cbn [play game]. by rewrite Hc.
Qed.

(** Every run of the event loop stays within the states of the session. *)
Lemma run_simulated (st0 : GameState) (events : list Event) :
  forall s s', simulated st0 s -> run events s = Some s' -> simulated st0 s'.
Proof.
  induction events as [|e events IH]; intros s s' Hsim; cbn [run].
  - by intros [= <-].
  - destruct (step e s) as [s1|] eqn:He; [|done].
    apply IH. eapply step_simulated; eauto.
Qed.

Lemma simulated_start (st0 : GameState) : simulated st0 (mkSession st0 0).
Proof. left. split; [done|]. by exists []. Qed.

(** The state in which a reply is scheduled: the game runs but for the
    blocked input, after the move of the player who clicked. *)
Lemma scheduled_ok (m : GameMode) (s0 : Stats) (st : GameState) (i : nat) :
  session_ok m s0 st ->
  timers (clickCell i (mkSession st 0)) = 1%nat ->
  let g := game (clickCell i (mkSession st 0)) in
  isGameActive g = false /\ length (board g) = 9%nat /\
  checkWin (board g) X = false /\ checkWin (board g) O = false /\
  none_null (board g) = false /\ stats g = s0.
Proof.
  intros (Hok & _ & _) Ht.
  destruct (clickCell_timers i st)
    as [[Ht' _]|(_ & Hact & Hnull & Hact1 & _ & Hb & Hs & Hoff)]; [lia|].
  destruct (makeMove_ok s0 i st Hok Hact Hnull) as ([Hlen1 Hrun1] & _ & _).
  rewrite Hact1 in Hrun1. destruct Hrun1 as (HX & HO & Hnf & Hst & _).
  cbv zeta. rewrite Hb, Hs. done.
Qed.

(** X9.  On the event loop as the code runs it (cell clicks and timer
    callbacks in any order, no reset), from a fresh game in any mode and
    with any draws: the two marks never both hold a line, at most one
    reply is scheduled, and input is blocked ([isGameActive] is false)
    exactly when a mark holds a line, or no cell is empty, or a reply is
    scheduled. *)
Theorem run_over_iff (m : GameMode) (s0 : Stats) (events : list Event)
    (s : Session) :
  run events (mkSession (newGame m s0) 0) = Some s ->
  ~ (checkWin (board (game s)) X = true /\
     checkWin (board (game s)) O = true) /\
  (timers s <= 1)%nat /\
  (isGameActive (game s) = false <->
   checkWin (board (game s)) X = true \/
   checkWin (board (game s)) O = true \/
   (forall i, board (game s) !! i <> Some None) \/
   timers s = 1%nat).
Proof.
  intros Hrun.
  destruct (run_simulated _ events _ _ (simulated_start _) Hrun)
    as [[Ht (clicks & Hplay)]|[Ht (clicks & st & i & Hplay & ->)]].
  - destruct (play_ok m s0 clicks _ _ (newGame_ok m s0) Hplay)
      as ((_ & Hok) & _ & _).
    split; [|split; [lia|]]; destruct (isGameActive (game s)).
    + destruct Hok as (HX & HO & _). intros [? ?]; congruence.
    + destruct Hok as [Hrec _]. intros [H1 H2].
      destruct Hrec as [(_ & H & _)|[(_ & H & _)|(H & _)]]; congruence.
    + destruct Hok as (HX & HO & Hnf & _). split; [done|].
      intros [H|[H|[H|H]]]; [congruence|congruence| |lia].
      apply none_null_lookup in H. congruence.
    + destruct Hok as [Hrec _]. split; [|done]. intros _.
      destruct Hrec as [(H & _)|[(H & _)|(_ & _ & H & _)]]; [eauto|eauto|].
      right. right. left. by apply none_null_lookup.
  - pose proof (play_ok m s0 clicks _ _ (newGame_ok m s0) Hplay) as Hok.
    destruct (scheduled_ok m s0 st i Hok Ht) as (Hoff & _ & HX & HO & _).
    split; [intros [? ?]; congruence|]. split; [lia|].
    rewrite Hoff. split; [eauto 6|done].
Qed.

Lemma run_over_iff_witness :
  let s := clickCell 0 (mkSession (newGame pvch zeroStats) 0) in
  ~ (checkWin (board (game s)) X = true /\
     checkWin (board (game s)) O = true) /\
  (timers s <= 1)%nat /\
  (isGameActive (game s) = false <->
   checkWin (board (game s)) X = true \/
   checkWin (board (game s)) O = true \/
   (forall i, board (game s) !! i <> Some None) \/
   timers s = 1%nat).
Proof.
  apply (run_over_iff pvch zeroStats [ClickEvent 0; ClickEvent 3]
           (clickCell 0 (mkSession (newGame pvch zeroStats) 0))).
  reflexivity.
Defined.

(** ** The hard mode on the event loop *)

Lemma play_hard (s0 : Stats) (clicks : list Click) (st : GameState) :
  play clicks (newGame pvch s0) = Some st ->
  checkWin (board st) X = false /\ xWins (stats st) = xWins s0.
Proof.
  intros Hplay.
  destruct (explore_hard X) as (st0 & Hopen & Hexplore).
  injection Hopen as <-.
  destruct (explore_sound clicks 5 _ Hexplore) as (st' & Hplay' & Hok).
  replace (newGame pvch s0) with (add_stats s0 (newGame pvch zeroStats))
    in Hplay by (by destruct s0).
  rewrite play_add_stats, Hplay' in Hplay. injection Hplay as <-.
  unfold verdict_ok in Hok. rewrite !andb_true_iff in Hok.
  destruct Hok as [[[HX Hx] _] _].
  apply negb_true_iff in HX. apply Z.eqb_eq in Hx.
  cbn [add_stats board stats xWins]. split; [done|]. lia.
Qed.

(** X14.  The hard mode is never beaten on the event loop as the code
    runs it: from a fresh hard-mode game, after any sequence of cell
    clicks and timer callbacks (no reset), X holds no line and no win of
    X has been recorded - also in the states where the reply of the
    opponent is still scheduled. *)
Theorem hard_mode_event_loop (s0 : Stats) (events : list Event)
    (s : Session) :
  run events (mkSession (newGame pvch s0) 0) = Some s ->
  checkWin (board (game s)) X = false /\
  xWins (stats (game s)) = xWins s0.
Proof.
  intros Hrun.
  destruct (run_simulated _ events _ _ (simulated_start _) Hrun)
    as [[Ht (clicks & Hplay)]|[Ht (clicks & st & i & Hplay & ->)]].
  - by apply (play_hard s0 clicks).
  - pose proof (play_ok pvch s0 clicks _ _ (newGame_ok pvch s0) Hplay) as Hok.
    destruct (scheduled_ok pvch s0 st i Hok Ht) as (_ & _ & HX & _ & _ & Hs).
    split; [done|]. by rewrite Hs.
Qed.

Lemma hard_mode_event_loop_witness :
  let s := clickCell 0 (mkSession (newGame pvch (mkStats 3 1 2)) 0) in
  checkWin (board (game s)) X = false /\ xWins (stats (game s)) = 3.
Proof.
  apply (hard_mode_event_loop (mkStats 3 1 2) [ClickEvent 0; ClickEvent 3]
           (clickCell 0 (mkSession (newGame pvch (mkStats 3 1 2)) 0))).
  reflexivity.
Defined.

(** ** Symmetries of the board *)

Section Symmetry.

Variables sigma tau : nat -> nat.

Hypothesis sigma_lt : forall j, (j < 9)%nat -> (sigma j < 9)%nat.
Hypothesis tau_lt : forall j, (j < 9)%nat -> (tau j < 9)%nat.
Hypothesis sigma_tau : forall j, (j < 9)%nat -> sigma (tau j) = j.
Hypothesis tau_sigma : forall j, (j < 9)%nat -> tau (sigma j) = j.
Hypothesis sigma_lines :
  forall (b : Board) p, length b = 9%nat ->
                        checkWin (permute sigma b) p = checkWin b p.

Lemma length_permute (b : Board) : length (permute sigma b) = 9%nat.
Proof using Type. unfold permute. by rewrite length_map, length_seq. Qed.

Lemma lookup_permute (b : Board) (j : nat) :
  length b = 9%nat -> (j < 9)%nat -> permute sigma b !! j = b !! sigma j.
Proof using sigma_lt.
  intros Hlen Hj. unfold permute.
  rewrite list_lookup_fmap, lookup_seq_lt by done. cbn.
  destruct (lookup_lt_is_Some_2 b (sigma j)) as [c ->]; [|done].
  rewrite Hlen. by apply sigma_lt.
Qed.

Lemma is_null_permute (b : Board) (j : nat) :
  length b = 9%nat -> (j < 9)%nat ->
  is_null (permute sigma b) j = is_null b (sigma j).
Proof using sigma_lt.
  intros Hlen Hj. unfold is_null. by rewrite lookup_permute.
Qed.

Lemma insert_permute (b : Board) (j : nat) (v : CellValue) :
  length b = 9%nat -> (j < 9)%nat ->
  <[j := v]> (permute sigma b) = permute sigma (<[sigma j := v]> b).
Proof using sigma_lt tau_sigma.
  intros Hlen Hj. apply list_eq. intros k.
  destruct (decide (k < 9)%nat) as [Hk|Hk].
  - rewrite (lookup_permute (<[sigma j := v]> b) k)
      by (by rewrite ?length_insert).
    destruct (decide (j = k)) as [->|Hne].
    + rewrite !list_lookup_insert_eq; rewrite ?length_permute, ?Hlen; eauto.
    + rewrite !list_lookup_insert_ne; [by apply lookup_permute|..]; [|done].
      intros Heq. apply Hne.
      rewrite <- (tau_sigma j Hj), <- (tau_sigma k Hk). by rewrite Heq.
  - rewrite !lookup_ge_None_2; [done|..];
      rewrite ?length_insert, length_permute; lia.
Qed.

Lemma none_null_permute (b : Board) :
  length b = 9%nat -> none_null (permute sigma b) = none_null b.
Proof using sigma_lt tau_lt sigma_tau.
  intros Hlen.
  destruct (none_null (permute sigma b)) eqn:H1,
           (none_null b) eqn:H2; try done.
  - apply none_null_false in H2 as [i Hi].
    pose proof (is_null_lt _ _ Hi) as Hlt. rewrite Hlen in Hlt.
    pose proof (proj1 (none_null_lookup _) H1 (tau i)) as Hno.
    rewrite lookup_permute, sigma_tau in Hno by eauto.
    by apply is_null_lookup in Hi.
  - apply none_null_false in H1 as [i Hi].
    pose proof (is_null_lt _ _ Hi) as Hlt. rewrite length_permute in Hlt.
    rewrite is_null_permute in Hi by done.
    pose proof (proj1 (none_null_lookup _) H2 (sigma i)) as Hno.
    by apply is_null_lookup in Hi.
Qed.

(** The search loops on a board and on its image end with the same
    score, when the scores of corresponding moves agree. *)
Lemma search_loop_permute (rec : Board -> option (Score * Board))
    (mark : Player) (pick : Score -> Score -> Score) (init : Score)
    (le : Score -> Score -> Prop) (b : Board) (child : nat -> Score) :
  (forall s, le s s) ->
  (forall s t u, le s t -> le t u -> le s u) ->
  (forall s t, le s t -> le t s -> s = t) ->
  (forall s acc,
     (pick s acc = s /\ le acc s) \/ (pick s acc = acc /\ le s acc)) ->
  (forall z, ~ le (Fin z) init) ->
  length b = 9%nat ->
  (exists i, is_null b i = true) ->
  (forall j, is_null b j = true ->
     finite (child j) /\
     rec (<[j := Some mark]> b) = Some (child j, <[j := Some mark]> b)) ->
  (forall j, (j < 9)%nat -> is_null b (sigma j) = true ->
     rec (<[j := Some mark]> (permute sigma b))
     = Some (child (sigma j), <[j := Some mark]> (permute sigma b))) ->
  exists r,
    for_each (search_cell rec mark pick) cells (init, b) = Some (r, b) /\
    for_each (search_cell rec mark pick) cells (init, permute sigma b)
    = Some (r, permute sigma b).
Proof using sigma_lt tau_lt sigma_tau.
  intros Hrefl Htrans Hanti Hpick Hinit Hlen [i0 Hi0] Hchild Hchild'.
  assert (Hcells : forall j, In j cells <-> (j < 9)%nat).
  { intros j. unfold cells. rewrite in_seq. lia. }
  assert (Hlt : forall j, is_null b j = true -> (j < 9)%nat).
  { intros j Hj. apply is_null_lt in Hj. lia. }
  destruct (search_loop_best rec mark pick b child le
              (fun j Hj => proj2 (Hchild j Hj)) Hrefl Htrans Hpick cells init)
    as (r & Hr & _ & Hall & Hex).
  destruct (search_loop_best rec mark pick (permute sigma b)
              (fun j => child (sigma j)) le) with (idxs := cells) (acc := init)
    as (r' & Hr' & _ & Hall' & Hex'); try done.
  { intros j Hj. pose proof (is_null_lt _ _ Hj) as Hj9.
    rewrite length_permute in Hj9. rewrite is_null_permute in Hj by done.
    by apply Hchild'. }
  exists r. split; [done|]. rewrite Hr'. do 2 f_equal.
  assert (Hrin : exists i, is_null b i = true /\ r = child i).
  { destruct Hex as [->|(i & _ & Hi & ->)]; [|eauto]. exfalso.
    destruct (proj1 (Hchild i0 Hi0)) as [z Hz].
    apply (Hinit z). rewrite <- Hz. apply Hall; [|done].
    apply Hcells. by apply Hlt. }
  assert (Hi0' : is_null (permute sigma b) (tau i0) = true).
  { rewrite is_null_permute, sigma_tau; eauto. }
  assert (Hrin' : exists i, (i < 9)%nat /\ is_null b (sigma i) = true /\
                            r' = child (sigma i)).
  { destruct Hex' as [->|(i & Hi9 & Hi & ->)].
    - exfalso. destruct (proj1 (Hchild i0 Hi0)) as [z Hz].
      apply (Hinit z). rewrite <- Hz.
      specialize (Hall' (tau i0)). cbv beta in Hall'.
      rewrite sigma_tau in Hall' by eauto.
      apply Hall'; [|done]. apply Hcells. eauto.
    - apply Hcells in Hi9. rewrite is_null_permute in Hi by done. eauto. }
  destruct Hrin as (i & Hi & ->). destruct Hrin' as (i' & Hi9' & Hi' & ->).
  apply Hanti.
  - apply Hall; [|done]. apply Hcells. eauto.
  - specialize (Hall' (tau i)). cbv beta in Hall'.
    rewrite sigma_tau in Hall' by eauto. apply Hall'.
    + apply Hcells. eauto.
    + rewrite is_null_permute, sigma_tau; eauto.
Qed.

Lemma minimax_permute (fuel : nat) :
  forall b depth isMaximizing aiPlayer,
    length b = 9%nat ->
    (count_null b < fuel)%nat -> (count_null (permute sigma b) < fuel)%nat ->
    exists s,
      minimax fuel b depth isMaximizing aiPlayer = Some (s, b) /\
      minimax fuel (permute sigma b) depth isMaximizing aiPlayer
      = Some (s, permute sigma b).
Proof using sigma_lt tau_lt sigma_tau tau_sigma sigma_lines.
  induction fuel as [|fuel IH]; intros b d m a Hlen Hf Hf'; [lia|].
  rewrite !minimax_S, !sigma_lines, none_null_permute by done.
  destruct (checkWin b O); [eauto|].
  destruct (checkWin b X); [eauto|].
  destruct (none_null b) eqn:Hfull; [eauto|].
  apply none_null_false in Hfull.
  assert (Hsc : scanned b) by (apply scanned_length; lia).
  assert (Hstep : forall mark m',
    exists child,
      (forall j, is_null b j = true ->
         finite (child j) /\
         minimax fuel (<[j := Some mark]> b) (d + 1) m' a
         = Some (child j, <[j := Some mark]> b)) /\
      (forall j, (j < 9)%nat -> is_null b (sigma j) = true ->
         minimax fuel (<[j := Some mark]> (permute sigma b)) (d + 1) m' a
         = Some (child (sigma j), <[j := Some mark]> (permute sigma b)))).
  { intros mark m'.
    exists (fun j => match minimax fuel (<[j := Some mark]> b) (d + 1) m' a with
                     | Some (s, _) => s
                     | None => NegInf
                     end).
    assert (Hsub : forall j, is_null b j = true ->
              (count_null (<[j := Some mark]> b) < fuel)%nat).
    { intros j Hj. pose proof (count_null_place b j mark Hj). lia. }
    split.
    - intros j Hj.
      destruct (minimax_total fuel (<[j := Some mark]> b) (d + 1) m' a
                  (Hsub j Hj)) as [s Hs].
      rewrite Hs. split; [|done].
      eapply minimax_finite; [|exact Hs]. by apply scanned_place.
    - intros j Hj9 Hj.
      assert (Hj' : is_null (permute sigma b) j = true)
        by (by rewrite is_null_permute).
      pose proof (count_null_place _ j mark Hj') as Hc'.
      destruct (IH (<[sigma j := Some mark]> b) (d + 1) m' a)
        as (s & Hs & Hs').
      + by rewrite length_insert.
      + by apply Hsub.
      + rewrite <- insert_permute by done. lia.
      + rewrite Hs. rewrite <- insert_permute in Hs' by done. exact Hs'. }
  destruct m.
  - destruct (Hstep O false) as (child & Hchild & Hchild').
    apply (search_loop_permute _ O Math_max NegInf score_le b child);
      try done.
    + apply score_le_refl.
    + apply score_le_trans.
    + apply score_le_antisym.
    + apply Math_max_cases.
  - destruct (Hstep X true) as (child & Hchild & Hchild').
    apply (search_loop_permute _ X Math_min PosInf
             (fun s t => score_le t s) b child); try done.
    + apply score_le_refl.
    + intros s t u H1 H2. by apply (score_le_trans u t s).
    + intros s t H1 H2. by apply score_le_antisym.
    + apply Math_min_cases.
Qed.

(** The score of a board and of its image, each with its own fuel. *)
Lemma minimax_symmetric (b : Board) (depth : Z) (isMaximizing : bool)
    (aiPlayer : Player) :
  length b = 9%nat ->
  exists s,
    minimax (search_fuel b) b depth isMaximizing aiPlayer = Some (s, b) /\
    minimax (search_fuel (permute sigma b)) (permute sigma b) depth
            isMaximizing aiPlayer
    = Some (s, permute sigma b).
Proof using sigma_lt tau_lt sigma_tau tau_sigma sigma_lines.
  intros Hlen.
  set (fuel := (search_fuel b + search_fuel (permute sigma b))%nat).
  destruct (minimax_permute fuel b depth isMaximizing aiPlayer Hlen)
    as (s & Hs & Hs'); [unfold fuel, search_fuel; lia..|].
  destruct (minimax_enough b depth isMaximizing aiPlayer) as [s1 H1].
  destruct (minimax_enough (permute sigma b) depth isMaximizing aiPlayer)
    as [s2 H2].
  rewrite H1 in Hs by (unfold fuel, search_fuel; lia).
  rewrite H2 in Hs' by (unfold fuel, search_fuel; lia).
  exists s. rewrite H1, H2 by (unfold search_fuel; lia). split; congruence.
Qed.

End Symmetry.

Lemma checkWin_nine (c0 c1 c2 c3 c4 c5 c6 c7 c8 : CellValue) (p : Player) :
  checkWin [c0; c1; c2; c3; c4; c5; c6; c7; c8] p
  = let h := cell_holds p in
    (h c0 && (h c1 && (h c2 && true)))
    || ((h c3 && (h c4 && (h c5 && true)))
    || ((h c6 && (h c7 && (h c8 && true)))
    || ((h c0 && (h c3 && (h c6 && true)))
    || ((h c1 && (h c4 && (h c7 && true)))
    || ((h c2 && (h c5 && (h c8 && true)))
    || ((h c0 && (h c4 && (h c8 && true)))
    || ((h c2 && (h c4 && (h c6 && true))) || false))))))).
Proof. reflexivity. Qed.

Lemma nine_cells (b : Board) :
  length b = 9%nat ->
  exists c0 c1 c2 c3 c4 c5 c6 c7 c8, b = [c0; c1; c2; c3; c4; c5; c6; c7; c8].
Proof.
  intros Hlen. do 9 (destruct b as [|? b]; [done|]). destruct b; [|done].
  by do 9 eexists.
Qed.

Ltac lines_agree p :=
  rewrite !checkWin_nine; cbv zeta;
  repeat match goal with H : length _ = _ |- _ => clear H end;
  repeat match goal with
         | |- context [cell_holds p ?c] =>
             generalize (cell_holds p c); clear c; intros []
         end;
  reflexivity.

Lemma quarterTurn_lines (b : Board) (p : Player) :
  length b = 9%nat -> checkWin (permute quarterTurn b) p = checkWin b p.
Proof.
  intros Hlen.
  destruct (nine_cells b Hlen)
    as (c0 & c1 & c2 & c3 & c4 & c5 & c6 & c7 & c8 & ->).
  change (permute quarterTurn [c0; c1; c2; c3; c4; c5; c6; c7; c8])
    with [c6; c3; c0; c7; c4; c1; c8; c5; c2].
  lines_agree p.
Qed.

Lemma mirror_lines (b : Board) (p : Player) :
  length b = 9%nat -> checkWin (permute mirror b) p = checkWin b p.
Proof.
  intros Hlen.
  destruct (nine_cells b Hlen)
    as (c0 & c1 & c2 & c3 & c4 & c5 & c6 & c7 & c8 & ->).
  change (permute mirror [c0; c1; c2; c3; c4; c5; c6; c7; c8])
    with [c2; c1; c0; c5; c4; c3; c8; c7; c6].
  lines_agree p.
Qed.

Ltac nine_indices j :=
  do 9 (destruct j as [|j]; [cbn; (lia || reflexivity)|]); lia.

(** X17.  The value of a position does not depend on how the board is
    turned or mirrored: on a nine-cell board, [minimax] returns the same
    score for the board, for the board turned by a quarter, and for its
    mirror image, at every depth and in both roles. *)
Theorem minimax_symmetry (b : Board) (depth : Z) (isMaximizing : bool)
    (aiPlayer : Player) :
  length b = 9%nat ->
  exists s,
    minimax (search_fuel b) b depth isMaximizing aiPlayer = Some (s, b) /\
    minimax (search_fuel (permute quarterTurn b)) (permute quarterTurn b)
            depth isMaximizing aiPlayer
    = Some (s, permute quarterTurn b) /\
    minimax (search_fuel (permute mirror b)) (permute mirror b)
            depth isMaximizing aiPlayer
    = Some (s, permute mirror b).
Proof.
  intros Hlen.
  destruct (minimax_symmetric quarterTurn quarterBack) with
    (b := b) (depth := depth) (isMaximizing := isMaximizing)
    (aiPlayer := aiPlayer) as (s & Hs & Hq); try done.
  1-4: intros j Hj; nine_indices j.
  { apply quarterTurn_lines. }
  destruct (minimax_symmetric mirror mirror) with
    (b := b) (depth := depth) (isMaximizing := isMaximizing)
    (aiPlayer := aiPlayer) as (s' & Hs' & Hm); try done.
  1-4: intros j Hj; nine_indices j.
  { apply mirror_lines. }
  exists s. split; [done|]. split; [done|]. congruence.
Qed.

Lemma minimax_symmetry_witness :
  exists s,
    minimax (search_fuel boardMidGame) boardMidGame 0 true O
    = Some (s, boardMidGame) /\
    minimax (search_fuel (permute quarterTurn boardMidGame))
            (permute quarterTurn boardMidGame) 0 true O
    = Some (s, permute quarterTurn boardMidGame) /\
    minimax (search_fuel (permute mirror boardMidGame))
            (permute mirror boardMidGame) 0 true O
    = Some (s, permute mirror boardMidGame).
Proof. apply (minimax_symmetry boardMidGame 0 true O). reflexivity. Defined.

(** ** Immediate wins and threats *)

(** Below a position that is not terminal the range of the scores is
    one narrower on each side. *)
Lemma minimax_inner_within (fuel : nat) (b : Board) (depth : Z)
    (isMaximizing : bool) (aiPlayer : Player) (s : Score) (b' : Board) :
  scanned b -> 0 <= depth -> depth + Z.of_nat (count_null b) <= 10 ->
  checkWin b O = false -> checkWin b X = false -> none_null b = false ->
  minimax fuel b depth isMaximizing aiPlayer = Some (s, b') ->
  within (depth + 1) s.
Proof.
  intros Hsc Hd Hdn HO HX Hfull H. destruct fuel as [|fuel]; [done|].
  rewrite minimax_S, HO, HX, Hfull in H.
  destruct (none_null_false b Hfull) as [i Hi].
  assert (Hin : In i cells) by (apply in_seq; specialize (Hsc i Hi); lia).
  assert (Hframe : forall d' m' b0 s0 b0',
             minimax fuel b0 d' m' aiPlayer = Some (s0, b0') -> b0' = b0).
  { intros; eapply minimax_frame; eauto. }
  assert (Hchild : forall mark m' j s1 b1, is_null b j = true ->
            minimax fuel (<[j := Some mark]> b) (depth + 1) m' aiPlayer
            = Some (s1, b1) ->
            within (depth + 1) s1).
  { intros mark m' j s1 b1 Hj Hr.
    pose proof (count_null_place b j mark Hj) as Hcount.
    eapply minimax_within; [| | |exact Hr]; [by apply scanned_place|lia|lia]. }
  destruct isMaximizing.
  - eapply (search_loop_invariant (within (depth + 1)) _ O Math_max NegInf b
              (Hframe _ _)); [| |exact H|right; eauto].
    + intros s1 acc (z & -> & Hz) [->|(z' & -> & Hz')]; [by exists z|].
      unfold Math_max. destruct (score_gt _ _); eexists; eauto.
    + intros j s1 b1. apply Hchild.
  - eapply (search_loop_invariant (within (depth + 1)) _ X Math_min PosInf b
              (Hframe _ _)); [| |exact H|right; eauto].
    + intros s1 acc (z & -> & Hz) [->|(z' & -> & Hz')]; [by exists z|].
      unfold Math_min. destruct (score_gt _ _); eexists; eauto.
    + intros j s1 b1. apply Hchild.
Qed.

Lemma all_null_emptyBoard (b : Board) :
  length b = 9%nat -> all_null b = true -> b = emptyBoard.
Proof.
  intros Hlen Hall. apply list_eq. intros i.
  destruct (decide (i < 9)%nat) as [Hi|Hi].
  - rewrite (all_null_lookup b i Hall) by lia.
    unfold emptyBoard. by rewrite lookup_replicate_2.
  - rewrite !lookup_ge_None_2; [done|..]; unfold emptyBoard;
      rewrite ?length_replicate; lia.
Qed.

(** One mark does not make a line. *)
Lemma emptyBoard_no_line (i : nat) (p q : Player) :
  checkWin (<[i := Some p]> emptyBoard) q = false.
Proof.
  destruct (decide (i < 9)%nat) as [Hi|Hi].
  - do 9 (destruct i as [|i]; [by destruct p, q|]). lia.
  - rewrite list_insert_ge; [by destruct q|].
    unfold emptyBoard. rewrite length_replicate. lia.
Qed.

(** The root loop on a nine-cell board with a mark and an empty cell:
    the move is an empty cell whose score no empty cell exceeds, and the
    empty cells before it have smaller scores. *)
Lemma getBestMove_scan (b : Board) (aiPlayer : Player) :
  length b = 9%nat -> all_null b = false -> (exists i, is_null b i = true) ->
  exists m : nat,
    getBestMove (search_fuel b) b aiPlayer = Some (Z.of_nat m, b) /\
    is_null b m = true /\
    (forall j, is_null b j = true ->
       score_le (rootScore (search_fuel b) b aiPlayer j)
                (rootScore (search_fuel b) b aiPlayer m)) /\
    (forall j, (j < m)%nat -> is_null b j = true ->
       score_gt (rootScore (search_fuel b) b aiPlayer m)
                (rootScore (search_fuel b) b aiPlayer j) = true).
Proof.
  intros Hlen Hmarks [i Hi].
  assert (Hsc : scanned b) by (apply scanned_length; lia).
  assert (Hfuel : (count_null b <= search_fuel b)%nat)
    by (unfold search_fuel; lia).
  unfold getBestMove. rewrite Hmarks, rootSearch_scan by done.
  set (sc := rootScore (search_fuel b) b aiPlayer).
  destruct (scan_seq sc b 9 0 NegInf (-1) _ eq_refl) as (_ & Hall & Hm).
  fold cells in Hm, Hall.
  destruct Hm as [Hr | (m & Hrange & Hnull & Hr & Hgm & Hlow)];
    rewrite Hr in *; cbn [fst snd] in *.
  - exfalso.
    destruct (rootScore_finite (search_fuel b) b aiPlayer i Hsc Hi Hfuel)
      as [z Hz].
    specialize (Hall i). fold sc in Hz. rewrite Hz in Hall.
    specialize (Hsc i Hi).
    assert (score_le (Fin z) NegInf) by (apply Hall; [lia|done]). done.
  - exists m. split; [done|]. split; [done|]. split.
    + intros j Hj. apply Hall; [|done]. specialize (Hsc j Hj). lia.
    + intros j Hj Hjnull. apply Hlow; [lia|done].
Qed.

(** The score the root loop gives to an empty cell of a nine-cell board,
    for the mark O: what [minimax] returns, an integer of [-10, 10]. *)
Lemma rootScore_O (b : Board) (j : nat) :
  length b = 9%nat -> is_null b j = true ->
  exists z,
    rootScore (search_fuel b) b O j = Fin z /\ -10 <= z <= 10 /\
    minimax (search_fuel b) (<[j := Some O]> b) 0 false O
    = Some (Fin z, <[j := Some O]> b).
Proof.
  intros Hlen Hj. pose proof (count_null_place b j O Hj) as Hcount.
  assert (Hsc : scanned (<[j := Some O]> b)).
  { apply scanned_length. rewrite length_insert. lia. }
  destruct (minimax_total (search_fuel b) (<[j := Some O]> b) 0 false O)
    as [s Hs]; [unfold search_fuel; lia|].
  pose proof (count_null_le_length b) as Hle.
  assert (H0 : 0 <= 0) by lia.
  assert (Hdn : 0 + Z.of_nat (count_null (<[j := Some O]> b)) <= 10) by lia.
  destruct (minimax_within _ _ _ _ _ _ _ Hsc H0 Hdn Hs) as (z & -> & Hz).
  exists z. unfold rootScore. rewrite Hs. split; [done|]. split; [lia|done].
Qed.

(** X18.  The hard opponent takes a win: on a nine-cell board on which
    some empty cell completes a line of O, [getBestMove] for O returns a
    cell that completes a line of O. *)
Theorem getBestMove_takes_win (b : Board) :
  length b = 9%nat ->
  (exists i, b !! i = Some None /\ checkWin (<[i := Some O]> b) O = true) ->
  exists m : nat,
    getBestMove (search_fuel b) b O = Some (Z.of_nat m, b) /\
    b !! m = Some None /\ checkWin (<[m := Some O]> b) O = true.
Proof.
  intros Hlen (i & Hi & Hwin). apply is_null_lookup in Hi.
  assert (Hmarks : all_null b = false).
  { apply not_true_is_false. intros Hall.
    rewrite (all_null_emptyBoard b Hlen Hall), emptyBoard_no_line in Hwin.
    done. }
  destruct (getBestMove_scan b O Hlen Hmarks (ex_intro _ i Hi))
    as (m & Hm & Hnull & Hbest & _).
  exists m. split; [done|]. split; [by apply is_null_lookup|].
  destruct (rootScore_O b i Hlen Hi) as (zi & Hzi & _ & Hmi).
  destruct (rootScore_O b m Hlen Hnull) as (zm & Hzm & Hrange & Hmm).
  assert (Hzi10 : zi = 10).
  { unfold search_fuel in Hmi. rewrite minimax_S, Hwin in Hmi.
    unfold SCORES_O in Hmi. injection Hmi as Hmi. lia. }
  assert (Hzm10 : zm = 10).
  { specialize (Hbest i Hi). rewrite Hzi, Hzm in Hbest.
    unfold score_le in Hbest. cbn in Hbest. apply Z.ltb_ge in Hbest. lia. }
  subst zi zm.
  destruct (checkWin (<[m := Some O]> b) O) eqn:HO; [done|]. exfalso.
  pose proof (count_null_place b m O Hnull) as Hcount.
  assert (Hsc : scanned (<[m := Some O]> b)).
  { apply scanned_length. rewrite length_insert. lia. }
  destruct (checkWin (<[m := Some O]> b) X) eqn:HX;
    [|destruct (none_null (<[m := Some O]> b)) eqn:Hfull].
  - unfold search_fuel in Hmm. rewrite minimax_S, HO, HX in Hmm. done.
  - unfold search_fuel in Hmm. rewrite minimax_S, HO, HX, Hfull in Hmm. done.
  - pose proof (count_null_le_length b) as Hle.
    assert (H0 : 0 <= 0) by lia.
    assert (Hdn : 0 + Z.of_nat (count_null (<[m := Some O]> b)) <= 10) by lia.
    destruct (minimax_inner_within _ _ _ _ _ _ _ Hsc H0 Hdn HO HX Hfull Hmm)
      as (z & [= <-] & Hz). lia.
Qed.

Lemma getBestMove_takes_win_witness :
  exists m : nat,
    getBestMove (search_fuel boardMidGame) boardMidGame O
    = Some (Z.of_nat m, boardMidGame) /\
    boardMidGame !! m = Some None /\
    checkWin (<[m := Some O]> boardMidGame) O = true.
Proof.
  apply (getBestMove_takes_win boardMidGame).
  - reflexivity.
  - exists 2%nat. split; reflexivity.
Defined.

Lemma is_null_place_ne (b : Board) (i j : nat) (mark : Player) :
  i <> j -> is_null (<[i := Some mark]> b) j = is_null b j.
Proof. intros Hne. unfold is_null. by rewrite list_lookup_insert_ne. Qed.

Lemma is_null_placed (b : Board) (i : nat) (mark : Player) :
  is_null (<[i := Some mark]> b) i = false.
Proof.
  unfold is_null. destruct (decide (i < length b)%nat) as [Hlt|Hge].
  - by rewrite list_lookup_insert_eq.
  - rewrite list_insert_ge by lia. by rewrite lookup_ge_None_2 by lia.
Qed.

(** A terminal or inner position where X cannot have won and O has not:
    at depth [d] its value is above [-10 + d]. *)
Lemma minimax_no_loss (fuel : nat) (b : Board) (depth : Z)
    (isMaximizing : bool) (z : Z) :
  length b = 9%nat -> 0 <= depth < 10 ->
  depth + Z.of_nat (count_null b) <= 10 ->
  checkWin b O = false -> checkWin b X = false ->
  minimax fuel b depth isMaximizing O = Some (Fin z, b) ->
  -10 + depth < z.
Proof.
  intros Hlen [Hd Hd10] Hdn HO HX H.
  assert (Hsc : scanned b) by (apply scanned_length; lia).
  destruct (none_null b) eqn:Hfull.
  - destruct fuel as [|fuel]; [done|].
    rewrite minimax_S, HO, HX, Hfull in H. injection H as <-.
    unfold SCORES_TIE. lia.
  - destruct (minimax_inner_within _ _ _ _ _ _ _ Hsc Hd Hdn HO HX Hfull H)
      as (z' & [= <-] & Hz). lia.
Qed.

(** X19.  The hard opponent blocks a threat: on a nine-cell board
    without a line, where O cannot win at once, X would complete a line
    on the empty cell [k], and after O on [k] X could not win at once,
    [getBestMove] for O returns [k]. *)
Theorem getBestMove_blocks (b : Board) (k : nat) :
  length b = 9%nat -> checkWin b X = false ->
  (forall j, b !! j = Some None -> checkWin (<[j := Some O]> b) O = false) ->
  b !! k = Some None -> checkWin (<[k := Some X]> b) X = true ->
  (forall j, b !! j = Some None -> j <> k ->
     checkWin (<[j := Some X]> (<[k := Some O]> b)) X = false) ->
  getBestMove (search_fuel b) b O = Some (Z.of_nat k, b).
Proof.
  intros Hlen HX HnoO Hk Hthreat Hblock. apply is_null_lookup in Hk.
  assert (HnoO' : forall j, is_null b j = true ->
                            checkWin (<[j := Some O]> b) O = false).
  { intros j Hj. apply HnoO. by apply is_null_lookup. }
  assert (Hmarks : all_null b = false).
  { apply not_true_is_false. intros Hall.
    rewrite (all_null_emptyBoard b Hlen Hall), emptyBoard_no_line in Hthreat.
    done. }
  pose proof (count_null_le_length b) as Hle.
  (* the score of every other move: X completes its line *)
  assert (Hother : forall j, is_null b j = true -> j <> k ->
            rootScore (search_fuel b) b O j = Fin (-9)).
  { intros j Hj Hjk.
    destruct (rootScore_O b j Hlen Hj) as (z & Hz & _ & Hmin). rewrite Hz.
    pose proof (count_null_place b j O Hj) as Hcount.
    assert (Hlenj : length (<[j := Some O]> b) = 9%nat)
      by (by rewrite length_insert).
    assert (HOj : checkWin (<[j := Some O]> b) O = false) by (by apply HnoO').
    assert (HXj : checkWin (<[j := Some O]> b) X = false)
      by (by rewrite checkWin_place_other).
    assert (Hkj : is_null (<[j := Some O]> b) k = true)
      by (by rewrite is_null_place_ne).
    assert (Hlow : -10 + 0 < z).
    { apply (minimax_no_loss _ _ 0 false z Hlenj) in Hmin; try done; lia. }
    destruct (minimax_node (count_null b) (<[j := Some O]> b) 0 false O)
      as (s & child & Hs & Hchild & _ & Hbest); try done; try lia.
    { exists k. by apply is_null_lookup. }
    unfold search_fuel in Hmin. rewrite Hmin in Hs. injection Hs as <-.
    specialize (Hchild k (proj1 (is_null_lookup _ _) Hkj)).
    specialize (Hbest k (proj1 (is_null_lookup _ _) Hkj)).
    cbn [mover negb at_least] in *.
    assert (Hwin : checkWin (<[k := Some X]> (<[j := Some O]> b)) X = true).
    { rewrite list_insert_insert_ne by done.
      rewrite checkWin_place_other; [done| |done].
      by rewrite is_null_place_ne. }
    assert (HnoOk : checkWin (<[k := Some X]> (<[j := Some O]> b)) O = false)
      by (by rewrite checkWin_place_other).
    pose proof (count_null_place _ k X Hkj) as Hcount2.
    destruct (count_null b) as [|fuel] eqn:Hcn; [lia|].
    rewrite minimax_S, HnoOk, Hwin in Hchild. injection Hchild as Hchild.
    rewrite <- Hchild in Hbest. unfold score_le, SCORES_X in Hbest.
    cbn in Hbest. apply Z.ltb_ge in Hbest. f_equal. lia. }
  (* the score of the block: X does not win at once *)
  assert (Hmine : exists z, rootScore (search_fuel b) b O k = Fin z /\ -9 < z).
  { destruct (rootScore_O b k Hlen Hk) as (z & Hz & _ & Hmin).
    exists z. split; [done|].
    pose proof (count_null_place b k O Hk) as Hcount.
    assert (Hlenk : length (<[k := Some O]> b) = 9%nat)
      by (by rewrite length_insert).
    assert (HOk : checkWin (<[k := Some O]> b) O = false) by (by apply HnoO').
    assert (HXk : checkWin (<[k := Some O]> b) X = false)
      by (by rewrite checkWin_place_other).
    destruct (none_null (<[k := Some O]> b)) eqn:Hfull.
    - unfold search_fuel in Hmin. rewrite minimax_S, HOk, HXk, Hfull in Hmin.
      injection Hmin as <-. done.
    - destruct (none_null_false _ Hfull) as [i0 Hi0].
      destruct (minimax_node (count_null b) (<[k := Some O]> b) 0 false O)
        as (s & child & Hs & Hchild & (i & Hi & ->) & _); try done; try lia.
      { exists i0. by apply is_null_lookup. }
      unfold search_fuel in Hmin. rewrite Hmin in Hs. injection Hs as Hs.
      specialize (Hchild i Hi). cbn [mover negb] in Hchild.
      rewrite <- Hs in Hchild. apply is_null_lookup in Hi.
      assert (Hik : i <> k).
      { intros ->. by rewrite is_null_placed in Hi. }
      assert (Hib : is_null b i = true) by (by rewrite is_null_place_ne in Hi).
      pose proof (count_null_place _ i X Hi) as Hcount2.
      apply (minimax_no_loss _ _ (0 + 1) true z) in Hchild; try lia.
      + by rewrite length_insert.
      + by rewrite checkWin_place_other.
      + apply Hblock; [by apply is_null_lookup|done]. }
  destruct Hmine as (zk & Hzk & Hgt).
  destruct (getBestMove_scan b O Hlen Hmarks (ex_intro _ k Hk))
    as (m & Hm & Hnull & Hbest & _).
  destruct (decide (m = k)) as [->|Hne]; [done|]. exfalso.
  specialize (Hbest k Hk). rewrite Hzk, (Hother m Hnull Hne) in Hbest.
  unfold score_le in Hbest. cbn in Hbest. apply Z.ltb_ge in Hbest. lia.
Qed.

Lemma getBestMove_blocks_witness :
  getBestMove (search_fuel boardThreat) boardThreat O
  = Some (Z.of_nat 6, boardThreat).
Proof.
  apply (getBestMove_blocks boardThreat 6).
  - reflexivity.
  - reflexivity.
  - intros j Hj. do 9 (destruct j as [|j]; [done|]). done.
  - reflexivity.
  - reflexivity.
  - intros j Hj Hne. do 9 (destruct j as [|j]; [done|]). done.
Defined.
